(** * Knights, Knaves and Monks: the puzzle solver of [puzzle_generator.py]

    A shallow embedding of the statement language, the scenario space and the
    puzzle-level queries of [src/package/puzzle_generator.py], together with
    the places where the older [src/puzzle_generator.py] differs
    ([IsOfType.evaluate_truth], [Scenario.__hash__], [_generate_scenarios]).

    Python values are modelled as follows.
    - [int] is [Z]; list lengths are converted with [Z.of_nat].
    - A [dict] with string keys is an insertion-ordered association list
      without repeated keys ([dict V]); [d[k]] is [dict_getitem], which raises
      [KeyError]; [d[k] = v] is [dict_setitem].
    - Exceptions are the constructors of [exception]; a function that can raise
      returns [result A].
    - The three identity classes are the constructors of [Identity]. *)

From stdpp Require Import base tactics option list numbers strings sorting.
From Stdlib Require Import ZArith Lia.

Local Open Scope Z_scope.

(** ** Exceptions and results *)

Inductive exception : Type :=
| CharacterIdentifierError (name : string)   (* "Cannot find character '<name>'." *)
| TooManyMonksError (monk_count : Z)
| KeyError (key : string)
| IndexError
| TypeError.

Inductive result (A : Type) : Type :=
| Ok (a : A)
| Err (e : exception).
Arguments Ok {A} a.
Arguments Err {A} e.

#[global] Instance result_ret : MRet result := fun A a => Ok a.
#[global] Instance result_bind : MBind result := fun A B f r =>
  match r with
  | Ok a => f a
  | Err e => Err e
  end.

(** ** Dictionaries *)

Abbreviation dict V := (list (string * V)).

Fixpoint dict_get {V : Type} (d : dict V) (k : string) : option V :=
  match d with
  | [] => None
  | (k', v) :: rest => if decide (k' = k) then Some v else dict_get rest k
  end.

Definition dict_getitem {V : Type} (d : dict V) (k : string) : result V :=
  match dict_get d k with
  | Some v => Ok v
  | None => Err (KeyError k)
  end.

Fixpoint dict_setitem {V : Type} (d : dict V) (k : string) (v : V) : dict V :=
  match d with
  | [] => [(k, v)]
  | (k', v') :: rest =>
      if decide (k' = k) then (k', v) :: rest else (k', v') :: dict_setitem rest k v
  end.

Definition dict_keys {V : Type} (d : dict V) : list string := d.*1.
Definition dict_values {V : Type} (d : dict V) : list V := d.*2.

(** A Python dict never holds a key twice. *)
Definition dict_wf {V : Type} (d : dict V) : Prop := NoDup (dict_keys d).

(** ** Identities *)

Inductive Identity : Type := Knight | Knave | Monk.

#[global] Instance Identity_eq_dec : EqDecision Identity.
Proof. solve_decision. Defined.

Definition title (c : Identity) : string :=
  match c with Knight => "Knight" | Knave => "Knave" | Monk => "Monk" end.

Definition short_identifier (c : Identity) : string :=
  match c with Knight => "K" | Knave => "V" | Monk => "M" end.

Definition truth_quantifier (c : Identity) : Z :=
  match c with Knight => 1 | Monk => 0 | Knave => -1 end.

(** [POSSIBLE_CHARACTERS] is the list [[Knight, Knave, Monk]] in the older
    file and the set [{Knight, Knave, Monk}] in the package, whose iteration
    order Python leaves open.  An iteration order is any list holding each
    identity once. *)
Definition POSSIBLE_CHARACTERS : list Identity := [Knight; Knave; Monk].

Definition iteration_order (order : list Identity) : Prop :=
  order ≡ₚ POSSIBLE_CHARACTERS.

(** ** Relations of module [operator] *)

Inductive Relation : Type := op_lt | op_gt | op_le | op_ge | op_eq.

Definition apply_relation (r : Relation) (a b : Z) : bool :=
  match r with
  | op_lt => bool_decide (a < b)
  | op_gt => bool_decide (a > b)
  | op_le => bool_decide (a ≤ b)
  | op_ge => bool_decide (a >= b)
  | op_eq => bool_decide (a = b)
  end.

(** ** Statements *)

Inductive Statement : Type :=
| TrueStatement
| ConjunctiveStatement (statements : list Statement)
| DisjunctiveStatement (statements : list Statement)
| Not (statement : Statement)
| IsOfType (target_name : string) (claimed_character_type : Identity)
| IsSameAs (target_1_name target_2_name : string)
| Honesty (target_1_name target_2_name : string) (claimed_relation : Relation)
| CountOfType (character_type : Identity) (claimed_count : Z) (claimed_relation : Relation)
| IfConnective (a b : Statement)
| ExclusiveOrConnective (a b : Statement)
| SamenessCount (claimed_count : Z) (claimed_relation : Relation).

(** ** Scenarios *)

(** The reason of an inconsistency is the text
    ['<name> should not have said "<statement>".']; the model keeps the two
    values the text is formatted from. *)
Definition Reason : Type := string * Statement.

Record Scenario : Type := mkScenario {
  character_types : dict Identity;
  scenario_result : option (bool * option Reason)
}.

(** [Scenario(puzzle, character_types)]; the [puzzle] the scenario belongs to
    is passed to the functions that read it. *)
Definition Scenario_init (character_types : dict Identity) : Scenario :=
  mkScenario character_types None.

(** ** Truth of a statement in a scenario *)

(** [scenario.character_types[name]] inside [try ... except KeyError: raise
    CharacterIdentifierError(...)]. *)
Definition find_character (scenario : Scenario) (name : string) : result Identity :=
  match dict_getitem (character_types scenario) name with
  | Ok t => Ok t
  | Err (KeyError _) => Err (CharacterIdentifierError name)
  | Err e => Err e
  end.

(** The module-level function [lookup(scenario, *keys)]. *)
Fixpoint lookup_keys (scenario : Scenario) (keys : list string) : result (list Identity) :=
  match keys with
  | [] => Ok []
  | key :: rest =>
      t ← find_character scenario key;
      ts ← lookup_keys scenario rest;
      Ok (t :: ts)
  end.

(** [ConjunctiveStatement.for_each_statement] and [default_value]. *)
Definition conjunctive_for_each_statement (truth_value : bool) : option bool :=
  if truth_value then None else Some false.
Definition conjunctive_default_value : bool := true.

(** [DisjunctiveStatement.for_each_statement] and [default_value]. *)
Definition disjunctive_for_each_statement (truth_value : bool) : option bool :=
  if truth_value then Some true else None.
Definition disjunctive_default_value : bool := false.

(** The loop of [AbstractStatementCombiner.evaluate_truth]: the statements are
    evaluated in order, and the first non-[None] answer of
    [for_each_statement] ends the loop. *)
Definition combiner_evaluate_truth {A : Type}
    (for_each_statement : bool → option bool) (default_value : bool)
    (evaluate : A → result bool) : list A → result bool :=
  fix loop (statements : list A) : result bool :=
    match statements with
    | [] => Ok default_value
    | statement :: rest =>
        truth ← evaluate statement;
        match for_each_statement truth with
        | Some final => Ok final
        | None => loop rest
        end
    end.

(** The counting loop of [CountOfType.evaluate_truth]. *)
Definition count_of_type (scenario : Scenario) (character_type : Identity) : Z :=
  fold_left (fun count t => if decide (t = character_type) then count + 1 else count)
            (dict_values (character_types scenario)) 0.

Definition CountOfType_evaluate_truth (scenario : Scenario)
    (character_type : Identity) (claimed_count : Z) (claimed_relation : Relation) : bool :=
  apply_relation claimed_relation (count_of_type scenario character_type) claimed_count.

Definition IfConnective_evaluate_connective (a b : bool) : bool := negb a || b.
Definition ExclusiveOrConnective_evaluate_connective (a b : bool) : bool :=
  (a || b) && negb (a && b).

Section evaluate_truth.
(** The order in which [SamenessCount.__init__] iterates
    [POSSIBLE_CHARACTERS]. *)
Variable possible_characters : list Identity.

Fixpoint evaluate_truth (statement : Statement) (scenario : Scenario) : result bool :=
  match statement with
  | TrueStatement => Ok true
  | ConjunctiveStatement statements =>
      combiner_evaluate_truth conjunctive_for_each_statement conjunctive_default_value
        (fun s => evaluate_truth s scenario) statements
  | DisjunctiveStatement statements =>
      combiner_evaluate_truth disjunctive_for_each_statement disjunctive_default_value
        (fun s => evaluate_truth s scenario) statements
  | Not s =>
      truth ← evaluate_truth s scenario;
      Ok (negb truth)
  | IsOfType target_name claimed_character_type =>
      t ← find_character scenario target_name;
      Ok (bool_decide (t = claimed_character_type))
  | IsSameAs target_1_name target_2_name =>
      target_1_kind ← find_character scenario target_1_name;
      target_2_kind ← find_character scenario target_2_name;
      Ok (bool_decide (target_1_kind = target_2_kind))
  | Honesty target_1_name target_2_name claimed_relation =>
      kinds ← lookup_keys scenario [target_1_name; target_2_name];
      match kinds with
      | [target_1_kind; target_2_kind] =>
          Ok (apply_relation claimed_relation
                (truth_quantifier target_1_kind) (truth_quantifier target_2_kind))
      | _ => Err TypeError
      end
  | CountOfType character_type claimed_count claimed_relation =>
      Ok (CountOfType_evaluate_truth scenario character_type claimed_count claimed_relation)
  | IfConnective a b =>
      ta ← evaluate_truth a scenario;
      tb ← evaluate_truth b scenario;
      Ok (IfConnective_evaluate_connective ta tb)
  | ExclusiveOrConnective a b =>
      ta ← evaluate_truth a scenario;
      tb ← evaluate_truth b scenario;
      Ok (ExclusiveOrConnective_evaluate_connective ta tb)
  | SamenessCount claimed_count claimed_relation =>
      combiner_evaluate_truth disjunctive_for_each_statement disjunctive_default_value
        (fun kind => Ok (CountOfType_evaluate_truth scenario kind claimed_count claimed_relation))
        possible_characters
  end.

(** [Statement.evaluate_consistency]: the three tests on the speaker's
    identity are exhaustive over [Identity]. *)
Definition evaluate_consistency (statement : Statement)
    (speaking_character_type : Identity) (scenario : Scenario) : result bool :=
  if decide (speaking_character_type = Monk) then Ok true
  else
    truth ← evaluate_truth statement scenario;
    match speaking_character_type with
    | Knight => Ok truth
    | Knave => Ok (negb truth)
    | Monk => Ok true
    end.

(** The statement [_check_consistency] builds from a character's
    utterances: none for an empty list, the statement itself for one, a
    [ConjunctiveStatement] of all of them otherwise. *)
Definition joined_statement (statements : list Statement) : option Statement :=
  match statements with
  | [] => None
  | [statement] => Some statement
  | _ => Some (ConjunctiveStatement statements)
  end.

(** [Scenario._check_consistency], as a loop over
    [puzzle.character_statements.items()]. *)
Fixpoint _check_consistency (scenario : Scenario)
    (character_statements : dict (list Statement)) : result (bool * option Reason) :=
  match character_statements with
  | [] => Ok (true, None)
  | (character_name, statements) :: rest =>
      speaking_character_type ← dict_getitem (character_types scenario) character_name;
      match joined_statement statements with
      | None => _check_consistency scenario rest
      | Some statement =>
          consistent ← evaluate_consistency statement speaking_character_type scenario;
          if (consistent : bool) then _check_consistency scenario rest
          else Ok (false, Some (character_name, statement))
      end
  end.

(** [Scenario.check_consistency] also stores the result on the scenario. *)
Definition check_consistency (scenario : Scenario)
    (character_statements : dict (list Statement))
    : result ((bool * option Reason) * Scenario) :=
  r ← _check_consistency scenario character_statements;
  Ok (r, mkScenario (character_types scenario) (Some r)).

End evaluate_truth.

(** ** Equality and hashing of scenarios *)

(** [Scenario.__eq__]: [other.character_types[name]] raises [KeyError] for a
    name the other scenario lacks. *)
Fixpoint Scenario_eq_loop (items : dict Identity) (other : Scenario) : result bool :=
  match items with
  | [] => Ok true
  | (name, t) :: rest =>
      t' ← dict_getitem (character_types other) name;
      if decide (t' ≠ t) then Ok false else Scenario_eq_loop rest other
  end.

Definition Scenario_eq (self other : Scenario) : result bool :=
  if decide (length (character_types self) ≠ length (character_types other)) then Ok false
  else Scenario_eq_loop (character_types self) other.

(** The text that [Scenario.__hash__] builds and hands to the built-in
    [hash]: ["|"] followed by ["<name>,<short_identifier>|"] for every name. *)
Definition hash_entry (name : string) (t : Identity) : string :=
  name +:+ "," +:+ short_identifier t +:+ "|".

(** [sorted(self.character_types)]: the names in increasing order.  Python
    orders strings by code point, which for UTF-8 text is the order of the
    bytes that [String.le] compares. *)
Definition sorted_names (d : dict Identity) : list string :=
  merge_sort String.le (dict_keys d).

(** The package iterates over the sorted names and looks each one up. *)
Fixpoint character_string_loop (d : dict Identity) (names : list string) (acc : string)
    : result string :=
  match names with
  | [] => Ok acc
  | name :: rest =>
      t ← dict_getitem d name;
      character_string_loop d rest (acc +:+ hash_entry name t)
  end.

Definition Scenario_character_string (self : Scenario) : result string :=
  character_string_loop (character_types self) (sorted_names (character_types self)) "|".

(** The older file iterates over [self.character_types.items()], that is in
    insertion order. *)
Definition Scenario_character_string_old (self : Scenario) : string :=
  fold_left (fun acc '(name, t) => acc +:+ hash_entry name t) (character_types self) "|".

Section hash.
(** The built-in [hash] on strings. *)
Variable hash : string → Z.

Definition Scenario_hash (self : Scenario) : result Z :=
  character_string ← Scenario_character_string self;
  Ok (hash character_string).

Definition Scenario_hash_old (self : Scenario) : Z :=
  hash (Scenario_character_string_old self).
End hash.

(** ** [IsOfType] in the older file *)

(** The older file tests [isinstance(scenario.character_types[name], claimed)].
    The values of [character_types] are the identity classes themselves, so
    the test asks whether the class of a class, [type], is a subclass of the
    claimed class. *)
Inductive pyclass : Type :=
| class_object
| class_type
| class_Character
| class_of (c : Identity).

#[global] Instance pyclass_eq_dec : EqDecision pyclass.
Proof. solve_decision. Defined.

(** The base class of each class ([object] has none). *)
Definition base_class (c : pyclass) : option pyclass :=
  match c with
  | class_object => None
  | class_type => Some class_object
  | class_Character => Some class_object
  | class_of _ => Some class_Character
  end.

Fixpoint issubclass_fuel (fuel : nat) (c : pyclass) (classinfo : pyclass) : bool :=
  if decide (c = classinfo) then true
  else match fuel, base_class c with
       | S fuel', Some b => issubclass_fuel fuel' b classinfo
       | _, _ => false
       end.

(** The class hierarchy is three levels deep. *)
Definition issubclass (c classinfo : pyclass) : bool := issubclass_fuel 3 c classinfo.

(** [type(x)] for [x] one of the identity classes. *)
Definition type_of_identity_class (t : Identity) : pyclass := class_type.

Definition isinstance (t : Identity) (classinfo : pyclass) : bool :=
  issubclass (type_of_identity_class t) classinfo.

Definition IsOfType_evaluate_truth_old (target_name : string) (claimed_character_type : pyclass)
    (scenario : Scenario) : result bool :=
  match dict_getitem (character_types scenario) target_name with
  | Ok t => Ok (isinstance t claimed_character_type)
  | Err (KeyError _) => Err (CharacterIdentifierError target_name)
  | Err e => Err e
  end.

(** ** Puzzles *)

Definition CHARACTER_COUNT_BOUND : Z * Z := (3, 7).
Definition SOLUTION_COUNT_BOUND : Z * Z := (0, 2).

(** A value of the dict handed to [Puzzle(...)]: one statement or a list. *)
Inductive utterance : Type :=
| one_statement (statement : Statement)
| statement_list (statements : list Statement).

Record Puzzle : Type := mkPuzzle {
  is_solved : bool;
  scenarios : list Scenario;
  character_names : list string;
  character_statements : dict (list Statement);
  max_num_monks : Z
}.

Definition num_characters (self : Puzzle) : Z := Z.of_nat (length (character_names self)).

(** [Puzzle._calculate_max_num_monks].  [n / 2] is Python's true division;
    the quotient of a list length by two is exact in binary floating point,
    so the test [max_num_monks == n / 2] holds exactly when
    [2 * max_num_monks = n]. *)
Definition _calculate_max_num_monks (num_characters : Z) (allow_monks : bool) : Z :=
  if negb allow_monks then 0
  else
    let max_num_monks := num_characters `div` 2 in
    if decide (2 * max_num_monks = num_characters) then max_num_monks - 1
    else max_num_monks.

(** The older file has no [allow_monks] argument. *)
Definition _calculate_max_num_monks_old (num_characters : Z) : Z :=
  let max_num_monks := num_characters `div` 2 in
  if decide (2 * max_num_monks = num_characters) then max_num_monks - 1
  else max_num_monks.

(** The loop of [Puzzle.__init__] over the items of its argument. *)
Fixpoint Puzzle_init_loop (items : dict utterance)
    (names : list string) (statements_of : dict (list Statement))
    : list string * dict (list Statement) :=
  match items with
  | [] => (names, statements_of)
  | (character_name, u) :: rest =>
      let statements :=
        match u with
        | one_statement s => [s]
        | statement_list l => l
        end in
      Puzzle_init_loop rest (names ++ [character_name])
        (dict_setitem statements_of character_name statements)
  end.

Definition Puzzle_init (character_names_and_statements : dict utterance)
    (allow_monks : bool) : Puzzle :=
  let '(names, statements_of) := Puzzle_init_loop character_names_and_statements [] [] in
  mkPuzzle false [] names statements_of
    (_calculate_max_num_monks (Z.of_nat (length names)) allow_monks).

(** [itertools.product(pool, repeat=n)]: the last position varies fastest. *)
Fixpoint product {A : Type} (pool : list A) (repeat : nat) : list (list A) :=
  match repeat with
  | O => [[]]
  | S r => x ← pool; (x ::.) <$> product pool r
  end.

(** The loop of [Puzzle._generate_scenario] over [self.character_names],
    with the loop variables [character_types], [i] and [monk_count]. *)
Fixpoint _generate_scenario_loop (max_num_monks : Z) (identity_ordering : list Identity)
    (names : list string) (character_types : dict Identity) (i : nat) (monk_count : Z)
    : result (dict Identity) :=
  match names with
  | [] => Ok character_types
  | name :: rest =>
      match identity_ordering !! i with
      | None => Err IndexError
      | Some t =>
          let monk_count := if decide (t = Monk) then monk_count + 1 else monk_count in
          let character_types := dict_setitem character_types name t in
          if decide (monk_count > max_num_monks) then Err (TooManyMonksError monk_count)
          else _generate_scenario_loop max_num_monks identity_ordering rest
                 character_types (S i) monk_count
      end
  end.

Definition _generate_scenario (self : Puzzle) (identity_ordering : list Identity)
    : result Scenario :=
  character_types ←
    _generate_scenario_loop (max_num_monks self) identity_ordering
      (character_names self) [] 0%nat 0;
  Ok (Scenario_init character_types).

(** The loop of [_generate_scenarios]: [TooManyMonksError] skips the
    ordering, any other exception leaves the loop. *)
Fixpoint _generate_scenarios_loop (self : Puzzle) (orderings : list (list Identity))
    (acc : list Scenario) : result (list Scenario) :=
  match orderings with
  | [] => Ok acc
  | identity_ordering :: rest =>
      match _generate_scenario self identity_ordering with
      | Ok scenario => _generate_scenarios_loop self rest (acc ++ [scenario])
      | Err (TooManyMonksError _) => _generate_scenarios_loop self rest acc
      | Err e => Err e
      end
  end.

Definition set_scenarios (self : Puzzle) (l : list Scenario) : Puzzle :=
  mkPuzzle (is_solved self) l (character_names self) (character_statements self)
    (max_num_monks self).

Definition set_is_solved (self : Puzzle) (b : bool) : Puzzle :=
  mkPuzzle b (scenarios self) (character_names self) (character_statements self)
    (max_num_monks self).

Section Puzzle.
(** The iteration order of the set [POSSIBLE_CHARACTERS]. *)
Variable possible_characters_order : list Identity.

Definition _generate_scenarios (self : Puzzle) : result Puzzle :=
  let possible_characters :=
    if decide (max_num_monks self = 0)
    then filter (fun c => c ≠ Monk) possible_characters_order
    else possible_characters_order in
  l ← _generate_scenarios_loop self
        (product possible_characters (length (character_names self))) [];
  Ok (set_scenarios self l).

(** The older file iterates over the list [POSSIBLE_CHARACTERS] and never
    removes [Monk]. *)
Definition _generate_scenarios_old (self : Puzzle) : result Puzzle :=
  l ← _generate_scenarios_loop self
        (product POSSIBLE_CHARACTERS (length (character_names self))) [];
  Ok (set_scenarios self l).

(** [Puzzle.check_scenario] with [should_print = DEBUG = False]: the call
    stores the result on the scenario.  [functools.lru_cache] keeps the
    calls of one puzzle apart by the scenario; the model is a call whose
    arguments were not seen before. *)
Definition check_scenario (self : Puzzle) (scenario : Scenario) : result Scenario :=
  '(_, scenario) ← check_consistency possible_characters_order scenario
                     (character_statements self);
  Ok scenario.

Fixpoint check_scenarios_loop (self : Puzzle) (l : list Scenario) : result (list Scenario) :=
  match l with
  | [] => Ok []
  | scenario :: rest =>
      scenario ← check_scenario self scenario;
      rest ← check_scenarios_loop self rest;
      Ok (scenario :: rest)
  end.

Definition generate_and_check_scenarios (self : Puzzle) : result Puzzle :=
  self ← (if decide (length (scenarios self) = 0%nat) then _generate_scenarios self
          else Ok self);
  l ← check_scenarios_loop self (scenarios self);
  Ok (set_is_solved (set_scenarios self l) true).

(** [set.add]: an element that is already present, that is one for which
    [__eq__] answers [True], is not added again. *)
Definition answers_True (r : result bool) : bool :=
  match r with
  | Ok true => true
  | _ => false
  end.

Definition set_add (ret : list Scenario) (scenario : Scenario) : list Scenario :=
  if existsb (fun present => answers_True (Scenario_eq present scenario)) ret
  then ret else ret ++ [scenario].

(** [Puzzle.get_consistent_scenario_set]; [scenario.result[0]] raises
    [TypeError] while the result is still [None]. *)
Fixpoint get_consistent_scenario_set_loop (l : list Scenario) (ret : list Scenario)
    : result (list Scenario) :=
  match l with
  | [] => Ok ret
  | scenario :: rest =>
      match scenario_result scenario with
      | None => Err TypeError
      | Some (b, _) =>
          get_consistent_scenario_set_loop rest (if b then set_add ret scenario else ret)
      end
  end.

Definition get_consistent_scenario_set (self : Puzzle) : result (list Scenario) :=
  get_consistent_scenario_set_loop (scenarios self) [].

Definition get_solution_count (self : Puzzle) : result (Z * Puzzle) :=
  self ← (if negb (is_solved self) then generate_and_check_scenarios self else Ok self);
  ret ← get_consistent_scenario_set self;
  Ok (Z.of_nat (length ret), self).

Definition get_total_possibilities (self : Puzzle) : Z :=
  Z.of_nat (length (scenarios self)).

(** [Puzzle.is_valid_puzzle]: Python's [and] does not evaluate its second
    operand when the first is false. *)
Definition is_valid_puzzle (self : Puzzle) : result (bool * Puzzle) :=
  if bool_decide (CHARACTER_COUNT_BOUND.1 ≤ num_characters self
                  ∧ num_characters self ≤ CHARACTER_COUNT_BOUND.2)
  then
    '(solution_count, self) ← get_solution_count self;
    Ok (bool_decide (SOLUTION_COUNT_BOUND.1 ≤ solution_count
                     ∧ solution_count ≤ SOLUTION_COUNT_BOUND.2), self)
  else Ok (false, self).

(** The inner loop of [has_maximum_monks] over [character_types.items()]. *)
Definition count_monks (scenario : Scenario) : Z :=
  fold_left (fun monks '(name, kind) => if decide (kind = Monk) then monks + 1 else monks)
            (character_types scenario) 0.

(** The outer loop of [has_maximum_monks] over the consistent scenarios. *)
Fixpoint has_maximum_monks_loop (max_num_monks : Z) (l : list Scenario) : bool :=
  match l with
  | [] => false
  | consistent_scenario :: rest =>
      if decide (count_monks consistent_scenario = max_num_monks) then true
      else has_maximum_monks_loop max_num_monks rest
  end.

Definition has_maximum_monks (self : Puzzle) : result (bool * Puzzle) :=
  self ← (if negb (is_solved self) then generate_and_check_scenarios self else Ok self);
  ret ← get_consistent_scenario_set self;
  Ok (has_maximum_monks_loop (max_num_monks self) ret, self).

End Puzzle.

(** ** Comparing identities, and the statements a generator proposes *)

(** The four comparison methods of [Character]. *)
Definition tells_truth_more_often_than (self character : Identity) : bool :=
  bool_decide (truth_quantifier self > truth_quantifier character).
Definition tells_truth_less_often_than (self character : Identity) : bool :=
  bool_decide (truth_quantifier self < truth_quantifier character).
Definition tells_truth_at_least_as_often_as (self character : Identity) : bool :=
  bool_decide (truth_quantifier self >= truth_quantifier character).
Definition tells_truth_less_often_or_the_same_as (self character : Identity) : bool :=
  bool_decide (truth_quantifier self ≤ truth_quantifier character).

(** [itertools.product(xs, ys)]: the second position varies fastest. *)
Definition product2 {A B : Type} (xs : list A) (ys : list B) : list (A * B) :=
  x ← xs; (fun y => (x, y)) <$> ys.

(** [itertools.combinations(xs, 2)]: the pairs of positions in increasing
    order. *)
Fixpoint combinations2 {A : Type} (xs : list A) : list (A * A) :=
  match xs with
  | [] => []
  | x :: rest => ((fun y => (x, y)) <$> rest) ++ combinations2 rest
  end.

(** [IsOfType.generate_possibilities]. *)
Definition IsOfType_generate_possibilities (names : list string) (kinds : list Identity)
    : list Statement :=
  (fun '(name, kind) => IsOfType name kind) <$> product2 names kinds.

(** [Honesty.generate_possibilities]. *)
Definition Honesty_generate_possibilities (names : list string) (kinds : list Identity)
    : list Statement :=
  (fun '((a, b), op) => Honesty a b op) <$> product2 (combinations2 names) [op_lt; op_gt].

(** [SamenessCount.generate_possibilities]. *)
Definition SamenessCount_generate_possibilities (names : list string) (kinds : list Identity)
    : list Statement :=
  [SamenessCount (Z.of_nat (length names) `div` 2) op_le].

(** * Vocabulary of the properties *)

(** A character whose round of the loop lets the loop go on. *)
Definition passes (order : list Identity) (scenario : Scenario) (entry : string * list Statement) : Prop :=
  ∃ t, dict_get (character_types scenario) entry.1 = Some t
       ∧ match joined_statement entry.2 with
         | None => True
         | Some statement => evaluate_consistency order statement t scenario = Ok true
         end.

(** Three characters accusing one another in a circle: exactly three
    solutions, hence not a valid puzzle. *)
Definition circle_of_accusations : Puzzle :=
  Puzzle_init [("A", one_statement (IsOfType "B" Knave));
               ("B", one_statement (IsOfType "C" Knave));
               ("C", one_statement (IsOfType "A" Knave))] true.


(** Induction over statements that reaches the members of a conjunction or
    disjunction. *)
Section Statement_induction.
Variable P : Statement → Prop.
Hypothesis HTrue : P TrueStatement.
Hypothesis HConj : ∀ l, Forall P l → P (ConjunctiveStatement l).
Hypothesis HDisj : ∀ l, Forall P l → P (DisjunctiveStatement l).
Hypothesis HNot : ∀ s, P s → P (Not s).
Hypothesis HIsOfType : ∀ n c, P (IsOfType n c).
Hypothesis HIsSameAs : ∀ n1 n2, P (IsSameAs n1 n2).
Hypothesis HHonesty : ∀ n1 n2 r, P (Honesty n1 n2 r).
Hypothesis HCountOfType : ∀ c k r, P (CountOfType c k r).
Hypothesis HIf : ∀ a b, P a → P b → P (IfConnective a b).
Hypothesis HXor : ∀ a b, P a → P b → P (ExclusiveOrConnective a b).
Hypothesis HSamenessCount : ∀ k r, P (SamenessCount k r).

Fixpoint Statement_nested_ind (s : Statement) : P s :=
  let members :=
    fix members (l : list Statement) : Forall P l :=
      match l with
      | [] => @List.Forall_nil _ P
      | x :: rest => @List.Forall_cons _ P x rest (Statement_nested_ind x) (members rest)
      end in
  match s with
  | TrueStatement => HTrue
  | ConjunctiveStatement l => HConj l (members l)
  | DisjunctiveStatement l => HDisj l (members l)
  | Not s => HNot s (Statement_nested_ind s)
  | IsOfType n c => HIsOfType n c
  | IsSameAs n1 n2 => HIsSameAs n1 n2
  | Honesty n1 n2 r => HHonesty n1 n2 r
  | CountOfType c k r => HCountOfType c k r
  | IfConnective a b => HIf a b (Statement_nested_ind a) (Statement_nested_ind b)
  | ExclusiveOrConnective a b => HXor a b (Statement_nested_ind a) (Statement_nested_ind b)
  | SamenessCount k r => HSamenessCount k r
  end.
End Statement_induction.

(** The character names a statement mentions, in the order of evaluation. *)
Fixpoint referenced_names (statement : Statement) : list string :=
  match statement with
  | TrueStatement => []
  | ConjunctiveStatement l | DisjunctiveStatement l => l ≫= referenced_names
  | Not s => referenced_names s
  | IsOfType n _ => [n]
  | IsSameAs n1 n2 => [n1; n2]
  | Honesty n1 n2 _ => [n1; n2]
  | CountOfType _ _ _ => []
  | IfConnective a b | ExclusiveOrConnective a b => referenced_names a ++ referenced_names b
  | SamenessCount _ _ => []
  end.

(** Statements without a conjunction or disjunction inside: nothing in them
    ends the evaluation early. *)
Fixpoint short_circuit_free (statement : Statement) : bool :=
  match statement with
  | ConjunctiveStatement _ | DisjunctiveStatement _ => false
  | Not s => short_circuit_free s
  | IfConnective a b | ExclusiveOrConnective a b => short_circuit_free a && short_circuit_free b
  | _ => true
  end.

(** A member decides its combiner when [for_each_statement] answers something
    other than [None] for its truth value. *)
Definition decides (for_each_statement : bool → option bool) (r : result bool) : bool :=
  match r with
  | Ok truth => match for_each_statement truth with Some _ => true | None => false end
  | Err _ => false
  end.

(** The names of the members the loop of a combiner gets to: those of every
    member up to and including the first one that decides. *)
Definition reached_members {A : Type} (decided : A → bool) (names : A → list string)
    : list A → list string :=
  fix loop (members : list A) : list string :=
    match members with
    | [] => []
    | member :: rest => names member ++ (if decided member then [] else loop rest)
    end.

(** The names a statement mentions that are not behind a member deciding a
    conjunction or disjunction of the statement in the scenario. *)
Fixpoint reached_names (order : list Identity) (statement : Statement)
    (scenario : Scenario) : list string :=
  match statement with
  | TrueStatement => []
  | ConjunctiveStatement l =>
      reached_members
        (fun s => decides conjunctive_for_each_statement (evaluate_truth order s scenario))
        (fun s => reached_names order s scenario) l
  | DisjunctiveStatement l =>
      reached_members
        (fun s => decides disjunctive_for_each_statement (evaluate_truth order s scenario))
        (fun s => reached_names order s scenario) l
  | Not s => reached_names order s scenario
  | IsOfType n _ => [n]
  | IsSameAs n1 n2 => [n1; n2]
  | Honesty n1 n2 _ => [n1; n2]
  | CountOfType _ _ _ => []
  | IfConnective a b | ExclusiveOrConnective a b =>
      reached_names order a scenario ++ reached_names order b scenario
  | SamenessCount _ _ => []
  end.

Definition unknown_in (scenario : Scenario) (statement : Statement) (e : exception) : Prop :=
  ∃ name, e = CharacterIdentifierError name
          ∧ name ∈ referenced_names statement
          ∧ dict_get (character_types scenario) name = None.

(** The number of monks in an identity ordering. *)
Definition count_Monk (ordering : list Identity) : Z :=
  Z.of_nat (length (filter (fun c => c = Monk) ordering)).

(** The scenario that gives the names of the puzzle the identities of the
    ordering, position by position. *)
Definition assignment (names : list string) (ordering : list Identity) : Scenario :=
  Scenario_init (zip names ordering).

(** The pool [_generate_scenarios] takes the product of. *)
Definition identity_pool (order : list Identity) (self : Puzzle) : list Identity :=
  if decide (max_num_monks self = 0) then filter (fun c => c ≠ Monk) order else order.

(** What [check_scenario] makes of a scenario. *)
Definition checked (order : list Identity) (self : Puzzle)
    (scenario scenario' : Scenario) : Prop :=
  ∃ r, _check_consistency order scenario (character_statements self) = Ok r
       ∧ scenario' = mkScenario (character_types scenario) (Some r).

(** A scenario whose stored result says consistent. *)
Definition is_consistent (scenario : Scenario) : Prop :=
  fst <$> scenario_result scenario = Some true.

(** The scenarios of a solved puzzle: each has a result, no name twice, and
    no monk at all when the bound is 0. *)
Definition well_checked (self : Puzzle) (scenario : Scenario) : Prop :=
  dict_wf (character_types scenario)
  ∧ is_Some (scenario_result scenario)
  ∧ (max_num_monks self = 0 → count_monks scenario = 0).


(** The list of statements [Puzzle.__init__] stores for a value of its
    argument. *)
Definition statements_of (u : utterance) : list Statement :=
  match u with
  | one_statement s => [s]
  | statement_list l => l
  end.

(** A puzzle input whose statements mention its own characters only. *)
Definition self_contained (input : dict utterance) : Prop :=
  ∀ name u statement mentioned,
    (name, u) ∈ input → statement ∈ statements_of u →
    mentioned ∈ referenced_names statement → mentioned ∈ dict_keys input.

#[global] Instance is_consistent_dec (scenario : Scenario) : Decision (is_consistent scenario).
Proof. unfold is_consistent. apply _. Defined.

(** * Properties *)

(** ** Dictionaries *)

Section dict_facts.
Context {V : Type}.
Implicit Types (d : dict V) (k : string) (v : V).

Lemma dict_get_Some_elem d k v : dict_get d k = Some v → (k, v) ∈ d.
Proof.
  induction d as [|[k' v'] d IH]; simpl; [done|].
  case_decide; intros; simplify_eq; [left | right; auto].
Qed.

Lemma dict_get_None d k : dict_get d k = None ↔ k ∉ dict_keys d.
Proof.
  unfold dict_keys. induction d as [|[k' v'] d IH]; simpl.
  - split; [intros _; apply not_elem_of_nil | done].
  - rewrite not_elem_of_cons. case_decide as Hk; simpl.
    + split; [done | intros [Hne _]; by destruct Hne].
    + rewrite IH. split; [by intros ?; split; [intros ->|] | by intros [_ ?]].
Qed.

Lemma dict_get_elem d k v : dict_wf d → (k, v) ∈ d → dict_get d k = Some v.
Proof.
  unfold dict_wf, dict_keys. induction d as [|[k' v'] d IH]; simpl.
  - intros _ H. by apply elem_of_nil in H.
  - rewrite NoDup_cons. intros [Hk Hd] [H|H]%elem_of_cons.
    + simplify_eq. by rewrite decide_True.
    + rewrite decide_False; [auto|].
      intros ->. apply Hk. apply (list_elem_of_fmap_2 fst) in H. done.
Qed.

Lemma dict_setitem_fresh d k v : k ∉ dict_keys d → dict_setitem d k v = d ++ [(k, v)].
Proof.
  unfold dict_keys. induction d as [|[k' v'] d IH]; simpl; [done|].
  rewrite not_elem_of_cons. intros [Hne Hk].
  rewrite decide_False by done. by rewrite IH.
Qed.

Lemma dict_get_app d1 d2 k :
  dict_get (d1 ++ d2) k = match dict_get d1 k with Some v => Some v | None => dict_get d2 k end.
Proof.
  induction d1 as [|[k' v'] d1 IH]; simpl; [done|]. by case_decide.
Qed.
End dict_facts.

(** [find_character] either finds the identity or names the missing
    character. *)
Lemma find_character_Some scenario name t :
  dict_get (character_types scenario) name = Some t → find_character scenario name = Ok t.
Proof. unfold find_character, dict_getitem. by intros ->. Qed.

Lemma find_character_None scenario name :
  dict_get (character_types scenario) name = None →
  find_character scenario name = Err (CharacterIdentifierError name).
Proof. unfold find_character, dict_getitem. by intros ->. Qed.

(** ** The monk bound *)

Lemma Puzzle_init_loop_names items names statements_of :
  (Puzzle_init_loop items names statements_of).1 = names ++ dict_keys items.
Proof.
  unfold dict_keys. revert names statements_of.
  induction items as [|[k u] items IH]; intros names statements_of; simpl.
  - by rewrite app_nil_r.
  - rewrite IH. by rewrite <- app_assoc.
Qed.

Lemma Puzzle_init_names input allow_monks :
  character_names (Puzzle_init input allow_monks) = dict_keys input.
Proof.
  unfold Puzzle_init.
  pose proof (Puzzle_init_loop_names input [] []) as H.
  destruct (Puzzle_init_loop input [] []) as [names statements_of]. simpl in *. done.
Qed.

Lemma Puzzle_init_max_num_monks input allow_monks :
  max_num_monks (Puzzle_init input allow_monks)
  = _calculate_max_num_monks (num_characters (Puzzle_init input allow_monks)) allow_monks.
Proof.
  unfold Puzzle_init, num_characters.
  by destruct (Puzzle_init_loop input [] []) as [names statements_of].
Qed.

Lemma _calculate_max_num_monks_allowed n :
  _calculate_max_num_monks n true = n `div` 2 - (if Z.even n then 1 else 0).
Proof.
  unfold _calculate_max_num_monks. simpl.
  pose proof (Z.div_mod n 2 ltac:(lia)) as Hdm.
  rewrite Zmod_even in Hdm.
  case_decide; destruct (Z.even n); lia.
Qed.

(** C7. With monks allowed, the monk bound of a puzzle with [n] characters is
    [n // 2], less one exactly when [n] is even; twice the bound is below [n];
    the bound is 1, 1, 2, 2, 3 for n = 3, 4, 5, 6, 7.  Both source files
    compute the same bound. *)
Theorem max_num_monks_formula :
  ∀ input : dict utterance,
    let self := Puzzle_init input true in
    let n := num_characters self in
    max_num_monks self = n `div` 2 - (if Z.even n then 1 else 0)
    ∧ 2 * max_num_monks self < n
    ∧ max_num_monks self = _calculate_max_num_monks_old n
    ∧ _calculate_max_num_monks 3 true = 1
    ∧ _calculate_max_num_monks 4 true = 1
    ∧ _calculate_max_num_monks 5 true = 2
    ∧ _calculate_max_num_monks 6 true = 2
    ∧ _calculate_max_num_monks 7 true = 3.
Proof.
  intros input self n.
  assert (max_num_monks self = _calculate_max_num_monks n true) as Hm
    by apply Puzzle_init_max_num_monks.
  rewrite Hm, _calculate_max_num_monks_allowed.
  repeat split; try reflexivity.
  - pose proof (Z.div_mod n 2 ltac:(lia)) as Hdm.
    rewrite Zmod_even in Hdm. destruct (Z.even n); lia.
  - rewrite <- _calculate_max_num_monks_allowed. reflexivity.
Qed.

(** ** [IsOfType] *)

(** In the package, [IsOfType] compares the assigned identity with the
    claimed one. *)
Lemma IsOfType_evaluate_truth_exact order scenario target_name claimed t :
  dict_get (character_types scenario) target_name = Some t →
  evaluate_truth order (IsOfType target_name claimed) scenario = Ok (bool_decide (t = claimed)).
Proof. intros Ht. simpl. by rewrite (find_character_Some _ _ _ Ht). Qed.

Lemma isinstance_identity_class t claimed : isinstance t (class_of claimed) = false.
Proof. by destruct claimed. Qed.

(** C5. In the older file [IsOfType.evaluate_truth] is false for every
    assigned target and every claimed identity, also when the scenario assigns
    the target exactly the claimed identity: for the scenario [A = Knight] the
    statement "A is a Knight" is false there and true in the package. *)
Theorem IsOfType_old_is_never_true :
  ∀ (scenario : Scenario) (target_name : string) (claimed : Identity),
    IsOfType_evaluate_truth_old target_name (class_of claimed) scenario
    = match dict_get (character_types scenario) target_name with
      | Some _ => Ok false
      | None => Err (CharacterIdentifierError target_name)
      end
    ∧ IsOfType_evaluate_truth_old "A" (class_of Knight) (Scenario_init [("A", Knight)])
      = Ok false
    ∧ evaluate_truth POSSIBLE_CHARACTERS (IsOfType "A" Knight) (Scenario_init [("A", Knight)])
      = Ok true.
Proof.
  intros scenario target_name claimed. split; [|done].
  unfold IsOfType_evaluate_truth_old, dict_getitem.
  destruct (dict_get _ _); [|done]. by rewrite isinstance_identity_class.
Qed.

(** ** The consistency check *)

Section consistency.
Variable order : list Identity.

Lemma joined_statement_many (statements : list Statement) :
  (1 < length statements)%nat →
  joined_statement statements = Some (ConjunctiveStatement statements).
Proof. destruct statements as [|a [|b l]]; simpl; [lia | lia | done]. Qed.

Lemma evaluate_consistency_Monk statement scenario :
  evaluate_consistency order statement Monk scenario = Ok true.
Proof. done. Qed.

Lemma evaluate_consistency_Knight statement scenario :
  evaluate_consistency order statement Knight scenario = evaluate_truth order statement scenario.
Proof.
  unfold evaluate_consistency. simpl. by destruct (evaluate_truth _ _ _).
Qed.

Lemma evaluate_consistency_Knave statement scenario :
  evaluate_consistency order statement Knave scenario
  = (truth ← evaluate_truth order statement scenario; Ok (negb truth)).
Proof. done. Qed.

(** One round of the loop of [_check_consistency], for a character the
    scenario assigns an identity. *)
Lemma _check_consistency_cons scenario name statements rest t :
  dict_get (character_types scenario) name = Some t →
  _check_consistency order scenario ((name, statements) :: rest)
  = match joined_statement statements with
    | None => _check_consistency order scenario rest
    | Some statement =>
        consistent ← evaluate_consistency order statement t scenario;
        if (consistent : bool) then _check_consistency order scenario rest
        else Ok (false, Some (name, statement))
    end.
Proof. intros Ht. simpl. unfold dict_getitem. by rewrite Ht. Qed.

Lemma _check_consistency_app scenario before rest :
  Forall (passes order scenario) before →
  _check_consistency order scenario (before ++ rest) = _check_consistency order scenario rest.
Proof.
  induction 1 as [|[name statements] before (t & Ht & Hs) _ IH]; [done|].
  simpl in Ht, Hs. rewrite <- app_comm_cons, (_check_consistency_cons _ _ _ _ _ Ht).
  destruct (joined_statement statements); [|done]. by rewrite Hs.
Qed.
End consistency.

(** C1. For a character with more than one statement, the round of the
    consistency check joins the statements into one [ConjunctiveStatement] and
    projects that conjunction once under the character's identity.  So with a
    true statement followed by a false one a Knave is consistent and a Knight is
    not. *)
Theorem conjunction_is_projected_once :
  ∀ (order : list Identity) (scenario : Scenario) (name : string)
    (statements : list Statement) (rest : dict (list Statement)) (t : Identity),
    (1 < length statements)%nat →
    dict_get (character_types scenario) name = Some t →
    _check_consistency order scenario ((name, statements) :: rest)
    = (consistent ← evaluate_consistency order (ConjunctiveStatement statements) t scenario;
       if (consistent : bool) then _check_consistency order scenario rest
       else Ok (false, Some (name, ConjunctiveStatement statements)))
    ∧ ∀ a b : Statement,
        statements = [a; b] →
        evaluate_truth order a scenario = Ok true →
        evaluate_truth order b scenario = Ok false →
        (t = Knave →
           evaluate_consistency order (ConjunctiveStatement statements) t scenario = Ok true
           ∧ _check_consistency order scenario [(name, statements)] = Ok (true, None))
        ∧ (t = Knight →
           evaluate_consistency order (ConjunctiveStatement statements) t scenario = Ok false
           ∧ _check_consistency order scenario [(name, statements)]
             = Ok (false, Some (name, ConjunctiveStatement statements))).
Proof.
  intros order scenario name statements rest t Hlen Ht. split.
  - rewrite (_check_consistency_cons _ _ _ _ _ _ Ht).
    by rewrite (joined_statement_many _ Hlen).
  - intros a b -> Ha Hb.
    assert (evaluate_truth order (ConjunctiveStatement [a; b]) scenario = Ok false) as Hc.
    { simpl. rewrite Ha. simpl. by rewrite Hb. }
    split; intros ->.
    + rewrite (_check_consistency_cons _ _ _ _ _ _ Ht).
      rewrite evaluate_consistency_Knave. simpl joined_statement. cbv beta iota.
      rewrite evaluate_consistency_Knave, Hc. done.
    + rewrite (_check_consistency_cons _ _ _ _ _ _ Ht).
      rewrite evaluate_consistency_Knight. simpl joined_statement. cbv beta iota.
      rewrite evaluate_consistency_Knight, Hc. done.
Qed.

Lemma conjunction_is_projected_once_witness :
  let scenario := Scenario_init [("A", Knave)] in
  let statements := [TrueStatement; Not TrueStatement] in
  _check_consistency POSSIBLE_CHARACTERS scenario [("A", statements)] = Ok (true, None).
Proof.
  intros scenario statements.
  refine (proj2 (proj1 (proj2 (conjunction_is_projected_once POSSIBLE_CHARACTERS scenario
            "A" statements [] Knave _ _) TrueStatement (Not TrueStatement) _ _ _) _)).
  - simpl. lia.
  - reflexivity.
  - reflexivity.
  - reflexivity.
  - reflexivity.
  - reflexivity.
Defined.

(** C2. When the scenario assigns Monk to a character, the consistency check
    gives the same answer (the same boolean, reason or exception) whatever
    that character's statements are. *)
Theorem monk_statements_do_not_matter :
  ∀ (order : list Identity) (scenario : Scenario) (x : string)
    (before after : dict (list Statement)) (statements1 statements2 : list Statement),
    dict_get (character_types scenario) x = Some Monk →
    _check_consistency order scenario (before ++ (x, statements1) :: after)
    = _check_consistency order scenario (before ++ (x, statements2) :: after).
Proof.
  intros order scenario x before after statements1 statements2 Hx.
  induction before as [|[name statements] before IH]; simpl.
  - unfold dict_getitem. rewrite Hx. simpl.
    destruct (joined_statement statements1), (joined_statement statements2); done.
  - destruct (dict_getitem _ name) as [t|e]; simpl; [|done].
    destruct (joined_statement statements); [|done].
    destruct (evaluate_consistency _ _ _ _) as [[]|]; simpl; by rewrite ?IH.
Qed.

Lemma monk_statements_do_not_matter_witness :
  _check_consistency POSSIBLE_CHARACTERS (Scenario_init [("A", Knight); ("X", Monk)])
    ([("A", [IsOfType "X" Monk])] ++ ("X", [Not TrueStatement; IsOfType "Z" Knave]) :: [])
  = _check_consistency POSSIBLE_CHARACTERS (Scenario_init [("A", Knight); ("X", Monk)])
    ([("A", [IsOfType "X" Monk])] ++ ("X", [TrueStatement]) :: []).
Proof.
  apply (monk_statements_do_not_matter POSSIBLE_CHARACTERS
           (Scenario_init [("A", Knight); ("X", Monk)]) "X").
  reflexivity.
Defined.

(** ** Validity of a puzzle *)

(** C9. [is_valid_puzzle] answers [True] exactly when the character count is
    in [3, 7] and the solution count is in [0, 2].  With 2 or 8 characters the
    answer is [False] and the solution count is not even computed; with
    solution count 3 the answer is [False]; with 3 to 7 characters and solution
    count 0, 1 or 2 it is [True]. *)
Theorem is_valid_puzzle_bounds :
  ∀ (order : list Identity) (self : Puzzle),
    let n := num_characters self in
    ((∃ self', is_valid_puzzle order self = Ok (true, self'))
     ↔ (3 ≤ n ∧ n ≤ 7)
       ∧ ∃ c self', get_solution_count order self = Ok (c, self') ∧ 0 ≤ c ∧ c ≤ 2)
    ∧ (n = 2 ∨ n = 8 → is_valid_puzzle order self = Ok (false, self))
    ∧ (∀ self', get_solution_count order self = Ok (3, self') →
         ∃ self'', is_valid_puzzle order self = Ok (false, self''))
    ∧ (∀ c self', 3 ≤ n ∧ n ≤ 7 → get_solution_count order self = Ok (c, self') →
         c = 0 ∨ c = 1 ∨ c = 2 → is_valid_puzzle order self = Ok (true, self')).
Proof.
  intros order self n. unfold is_valid_puzzle. fold n. simpl.
  split; [split | split; [|split]].
  - intros [self' H]. case_bool_decide as Hn; [|done].
    destruct (get_solution_count order self) as [[c p]|e]; simpl in H; [|done].
    split; [done|]. exists c, p. split; [done|].
    injection H as Hb _. by apply bool_decide_eq_true_1 in Hb.
  - intros [Hn (c & self' & Hc & Hc0 & Hc2)].
    rewrite bool_decide_eq_true_2 by done. rewrite Hc. simpl.
    exists self'. by rewrite bool_decide_eq_true_2.
  - intros Hn. rewrite bool_decide_eq_false_2; [done | lia].
  - intros self' Hc. case_bool_decide; [|by eexists].
    rewrite Hc. simpl. by eexists.
  - intros c self' Hn Hc Hc012. rewrite bool_decide_eq_true_2 by done.
    rewrite Hc. simpl. by rewrite bool_decide_eq_true_2 by lia.
Qed.

Lemma is_valid_puzzle_bounds_witness :
  (∃ self', get_solution_count POSSIBLE_CHARACTERS circle_of_accusations = Ok (3, self'))
  ∧ ∃ self'', is_valid_puzzle POSSIBLE_CHARACTERS circle_of_accusations = Ok (false, self'').
Proof.
  destruct (get_solution_count POSSIBLE_CHARACTERS circle_of_accusations)
    as [[c self']|e] eqn:Hc; vm_compute in Hc; [|discriminate].
  assert (c = 3) as -> by congruence.
  split; [by exists self'|].
  exact (proj1 (proj2 (proj2 (is_valid_puzzle_bounds POSSIBLE_CHARACTERS
                                circle_of_accusations))) self' Hc).
Defined.

(** ** The puzzle without characters *)

(** C10. A puzzle built from no characters, monks allowed, has the bound -1.
    Scenario generation still yields the one empty scenario, whose monk count
    0 is above the bound; its consistency check answers [(True, None)] and the
    solution count is 1. *)
Theorem empty_puzzle_has_one_solution :
  ∀ order : list Identity,
    let self := Puzzle_init [] true in
    max_num_monks self = -1
    ∧ _generate_scenarios order self = Ok (set_scenarios self [Scenario_init []])
    ∧ count_monks (Scenario_init []) > max_num_monks self
    ∧ _check_consistency order (Scenario_init []) (character_statements self) = Ok (true, None)
    ∧ ∃ self', get_solution_count order self = Ok (1, self')
               ∧ (scenario_result <$> scenarios self') = [Some (true, None)].
Proof.
  intros order self. repeat split. eexists. split; reflexivity.
Qed.

(** ** Unknown character names *)

Lemma find_character_Err scenario name e :
  find_character scenario name = Err e →
  e = CharacterIdentifierError name ∧ dict_get (character_types scenario) name = None.
Proof.
  unfold find_character, dict_getitem.
  destruct (dict_get _ _); [done|]. by intros [= <-].
Qed.

Section unknown_names.
Variable order : list Identity.
Variable scenario : Scenario.

Lemma combiner_evaluate_truth_total {A : Type} for_each default (f : A → bool) (l : list A) :
  ∃ b, combiner_evaluate_truth for_each default (fun x => Ok (f x)) l = Ok b.
Proof.
  induction l as [|x l [b IH]]; simpl; [by eexists|].
  destruct (for_each (f x)); [by eexists|]. by exists b.
Qed.

(** An exception of a member is an exception of the combiner's names. *)
Lemma combiner_evaluate_truth_Err for_each default (l : list Statement) e :
  Forall (fun s => ∀ e, evaluate_truth order s scenario = Err e → unknown_in scenario s e) l →
  combiner_evaluate_truth for_each default
    (fun s => evaluate_truth order s scenario) l = Err e →
  ∃ name, e = CharacterIdentifierError name
          ∧ name ∈ l ≫= referenced_names
          ∧ dict_get (character_types scenario) name = None.
Proof.
  induction 1 as [|s l Hs _ IH]; simpl; [done|].
  destruct (evaluate_truth order s scenario) as [truth|e'] eqn:Heval; simpl.
  - destruct (for_each truth); [done|]. intros (name & -> & Hin & Hnone)%IH.
    exists name. rewrite elem_of_app. auto.
  - intros [= ->]. destruct (Hs _ eq_refl) as (name & -> & Hin & Hnone).
    exists name. rewrite elem_of_app. auto.
Qed.

(** Whatever [evaluate_truth] raises is [CharacterIdentifierError] for a
    name the statement mentions and the scenario does not assign. *)
Lemma evaluate_truth_Err statement e :
  evaluate_truth order statement scenario = Err e → unknown_in scenario statement e.
Proof.
  revert e. induction statement as
    [|l IH|l IH|s IH|n c|n1 n2|n1 n2 r|c k r|a b IHa IHb|a b IHa IHb|k r]
    using Statement_nested_ind; intros e; unfold unknown_in in *; simpl.
  - done.
  - by apply combiner_evaluate_truth_Err.
  - by apply combiner_evaluate_truth_Err.
  - destruct (evaluate_truth order s scenario) eqn:Hs; simpl; [done|].
    intros [= ->]. by apply IH.
  - destruct (find_character scenario n) eqn:Hn; simpl; [done|].
    intros [= ->]. apply find_character_Err in Hn as [-> Hn].
    exists n. by rewrite list_elem_of_singleton.
  - destruct (find_character scenario n1) eqn:Hn1; simpl.
    + destruct (find_character scenario n2) eqn:Hn2; simpl; [done|].
      intros [= ->]. apply find_character_Err in Hn2 as [-> Hn2].
      exists n2. rewrite !elem_of_cons. auto.
    + intros [= ->]. apply find_character_Err in Hn1 as [-> Hn1].
      exists n1. rewrite !elem_of_cons. auto.
  - destruct (find_character scenario n1) eqn:Hn1; simpl.
    + destruct (find_character scenario n2) eqn:Hn2; simpl; [done|].
      intros [= ->]. apply find_character_Err in Hn2 as [-> Hn2].
      exists n2. rewrite !elem_of_cons. auto.
    + intros [= ->]. apply find_character_Err in Hn1 as [-> Hn1].
      exists n1. rewrite !elem_of_cons. auto.
  - done.
  - destruct (evaluate_truth order a scenario) eqn:Ha; simpl.
    + destruct (evaluate_truth order b scenario) eqn:Hb; simpl; [done|].
      intros [= ->]. destruct (IHb _ eq_refl) as (name & -> & Hin & Hnone).
      exists name. rewrite elem_of_app. auto.
    + intros [= ->]. destruct (IHa _ eq_refl) as (name & -> & Hin & Hnone).
      exists name. rewrite elem_of_app. auto.
  - destruct (evaluate_truth order a scenario) eqn:Ha; simpl.
    + destruct (evaluate_truth order b scenario) eqn:Hb; simpl; [done|].
      intros [= ->]. destruct (IHb _ eq_refl) as (name & -> & Hin & Hnone).
      exists name. rewrite elem_of_app. auto.
    + intros [= ->]. destruct (IHa _ eq_refl) as (name & -> & Hin & Hnone).
      exists name. rewrite elem_of_app. auto.
  - intros He.
    destruct (combiner_evaluate_truth_total disjunctive_for_each_statement
                disjunctive_default_value
                (fun kind => CountOfType_evaluate_truth scenario kind k r) order) as [b Hb].
    congruence.
Qed.

(** Members that are true do not end a conjunction. *)
Lemma ConjunctiveStatement_true_prefix pre rest :
  Forall (fun p => evaluate_truth order p scenario = Ok true) pre →
  evaluate_truth order (ConjunctiveStatement (pre ++ rest)) scenario
  = evaluate_truth order (ConjunctiveStatement rest) scenario.
Proof.
  induction 1 as [|p pre Hp _ IH]; [done|].
  simpl in *. by rewrite Hp.
Qed.

(** The statement built from the utterances raises when the first
    utterance that is not plainly true does. *)
Lemma joined_statement_raises pre s post e :
  Forall (fun p => evaluate_truth order p scenario = Ok true) pre →
  evaluate_truth order s scenario = Err e →
  ∃ statement, joined_statement (pre ++ s :: post) = Some statement
               ∧ evaluate_truth order statement scenario = Err e.
Proof.
  intros Hpre Hs.
  assert (evaluate_truth order (ConjunctiveStatement (pre ++ s :: post)) scenario = Err e)
    as Hconj.
  { rewrite (ConjunctiveStatement_true_prefix _ _ Hpre). simpl. by rewrite Hs. }
  destruct pre as [|p [|p' pre]]; simpl.
  - destruct post; eauto.
  - eauto.
  - eauto.
Qed.
(** Members that are false do not end a disjunction. *)
Lemma DisjunctiveStatement_false_prefix pre rest :
  Forall (fun p => evaluate_truth order p scenario = Ok false) pre →
  evaluate_truth order (DisjunctiveStatement (pre ++ rest)) scenario
  = evaluate_truth order (DisjunctiveStatement rest) scenario.
Proof.
  induction 1 as [|p pre Hp _ IH]; [done|].
  simpl in *. by rewrite Hp.
Qed.

(** *** The names an evaluation reaches *)

Lemma reached_members_mentioned decided (l : list Statement) name :
  Forall (fun s => name ∈ reached_names order s scenario → name ∈ referenced_names s) l →
  name ∈ reached_members decided (fun s => reached_names order s scenario) l →
  name ∈ l ≫= referenced_names.
Proof.
  induction 1 as [|s l Hs _ IH]; simpl; [done|].
  rewrite !elem_of_app. intros [Hin|Hin]; [left; by apply Hs|].
  destruct (decided s); [by apply elem_of_nil in Hin|]. right. by apply IH.
Qed.

(** A reached name is a mentioned name. *)
Lemma reached_names_mentioned statement name :
  name ∈ reached_names order statement scenario → name ∈ referenced_names statement.
Proof.
  induction statement as
    [|l IH|l IH|s IH|n c|n1 n2|n1 n2 r|c k r|a b IHa IHb|a b IHa IHb|k r]
    using Statement_nested_ind; simpl; try done.
  - by apply reached_members_mentioned.
  - by apply reached_members_mentioned.
  - rewrite !elem_of_app. intros [?|?]; auto.
  - rewrite !elem_of_app. intros [?|?]; auto.
Qed.

(** Without a conjunction or disjunction every mentioned name is reached. *)
Lemma short_circuit_free_reached statement :
  short_circuit_free statement = true →
  reached_names order statement scenario = referenced_names statement.
Proof.
  induction statement as
    [|l|l|s IH|n c|n1 n2|n1 n2 r|c k r|a IHa b IHb|a IHa b IHb|k r]; simpl; try done.
  - intros [Ha Hb]%andb_prop. by rewrite IHa, IHb.
  - intros [Ha Hb]%andb_prop. by rewrite IHa, IHb.
Qed.

Lemma combiner_evaluate_truth_Err_reached for_each default (l : list Statement) e :
  Forall (fun s => ∀ e, evaluate_truth order s scenario = Err e →
                        ∃ name, e = CharacterIdentifierError name
                                ∧ name ∈ reached_names order s scenario
                                ∧ dict_get (character_types scenario) name = None) l →
  combiner_evaluate_truth for_each default
    (fun s => evaluate_truth order s scenario) l = Err e →
  ∃ name, e = CharacterIdentifierError name
          ∧ name ∈ reached_members
                     (fun s => decides for_each (evaluate_truth order s scenario))
                     (fun s => reached_names order s scenario) l
          ∧ dict_get (character_types scenario) name = None.
Proof.
  induction 1 as [|s l Hs _ IH]; simpl; [done|].
  destruct (evaluate_truth order s scenario) as [truth|e'] eqn:Heval; simpl.
  - destruct (for_each truth); [done|]. intros (name & -> & Hin & Hnone)%IH.
    exists name. rewrite elem_of_app. auto.
  - intros [= ->]. destruct (Hs _ eq_refl) as (name & -> & Hin & Hnone).
    exists name. rewrite elem_of_app. auto.
Qed.

(** Whatever [evaluate_truth] raises is [CharacterIdentifierError] for a
    name that the evaluation reaches and the scenario does not assign. *)
Lemma evaluate_truth_Err_reached statement e :
  evaluate_truth order statement scenario = Err e →
  ∃ name, e = CharacterIdentifierError name
          ∧ name ∈ reached_names order statement scenario
          ∧ dict_get (character_types scenario) name = None.
Proof.
  revert e. induction statement as
    [|l IH|l IH|s IH|n c|n1 n2|n1 n2 r|c k r|a b IHa IHb|a b IHa IHb|k r]
    using Statement_nested_ind; intros e; simpl.
  - done.
  - by apply combiner_evaluate_truth_Err_reached.
  - by apply combiner_evaluate_truth_Err_reached.
  - destruct (evaluate_truth order s scenario) eqn:Hs; simpl; [done|].
    intros [= ->]. by apply IH.
  - destruct (find_character scenario n) eqn:Hn; simpl; [done|].
    intros [= ->]. apply find_character_Err in Hn as [-> Hn].
    exists n. by rewrite list_elem_of_singleton.
  - destruct (find_character scenario n1) eqn:Hn1; simpl.
    + destruct (find_character scenario n2) eqn:Hn2; simpl; [done|].
      intros [= ->]. apply find_character_Err in Hn2 as [-> Hn2].
      exists n2. rewrite !elem_of_cons. auto.
    + intros [= ->]. apply find_character_Err in Hn1 as [-> Hn1].
      exists n1. rewrite !elem_of_cons. auto.
  - destruct (find_character scenario n1) eqn:Hn1; simpl.
    + destruct (find_character scenario n2) eqn:Hn2; simpl; [done|].
      intros [= ->]. apply find_character_Err in Hn2 as [-> Hn2].
      exists n2. rewrite !elem_of_cons. auto.
    + intros [= ->]. apply find_character_Err in Hn1 as [-> Hn1].
      exists n1. rewrite !elem_of_cons. auto.
  - done.
  - destruct (evaluate_truth order a scenario) eqn:Ha; simpl.
    + destruct (evaluate_truth order b scenario) eqn:Hb; simpl; [done|].
      intros [= ->]. destruct (IHb _ eq_refl) as (name & -> & Hin & Hnone).
      exists name. rewrite elem_of_app. auto.
    + intros [= ->]. destruct (IHa _ eq_refl) as (name & -> & Hin & Hnone).
      exists name. rewrite elem_of_app. auto.
  - destruct (evaluate_truth order a scenario) eqn:Ha; simpl.
    + destruct (evaluate_truth order b scenario) eqn:Hb; simpl; [done|].
      intros [= ->]. destruct (IHb _ eq_refl) as (name & -> & Hin & Hnone).
      exists name. rewrite elem_of_app. auto.
    + intros [= ->]. destruct (IHa _ eq_refl) as (name & -> & Hin & Hnone).
      exists name. rewrite elem_of_app. auto.
  - intros He.
    destruct (combiner_evaluate_truth_total disjunctive_for_each_statement
                disjunctive_default_value
                (fun kind => CountOfType_evaluate_truth scenario kind k r) order) as [b Hb].
    congruence.
Qed.

Lemma reached_members_raises for_each default (l : list Statement) name :
  Forall (fun s => name ∈ reached_names order s scenario →
                   ∃ e, evaluate_truth order s scenario = Err e) l →
  name ∈ reached_members
           (fun s => decides for_each (evaluate_truth order s scenario))
           (fun s => reached_names order s scenario) l →
  ∃ e, combiner_evaluate_truth for_each default
         (fun s => evaluate_truth order s scenario) l = Err e.
Proof.
  induction 1 as [|s l Hs _ IH]; simpl; [by intros H%elem_of_nil|].
  rewrite elem_of_app. intros [Hin|Hin].
  - destruct (Hs Hin) as [e ->]. by exists e.
  - destruct (evaluate_truth order s scenario) as [truth|e]; simpl in *; [|by exists e].
    destruct (for_each truth); [by apply elem_of_nil in Hin|]. by apply IH.
Qed.

(** A reached name that the scenario does not assign makes the evaluation
    raise. *)
Lemma reached_names_raises statement name :
  dict_get (character_types scenario) name = None →
  name ∈ reached_names order statement scenario →
  ∃ e, evaluate_truth order statement scenario = Err e.
Proof.
  intros Hnone. induction statement as
    [|l IH|l IH|s IH|n c|n1 n2|n1 n2 r|c k r|a b IHa IHb|a b IHa IHb|k r]
    using Statement_nested_ind; simpl; try (by intros H%elem_of_nil).
  - by apply reached_members_raises.
  - by apply reached_members_raises.
  - intros Hin. destruct (IH Hin) as [e ->]. by eexists.
  - intros ->%list_elem_of_singleton.
    rewrite (find_character_None _ _ Hnone). by eexists.
  - intros Hin. destruct (dict_get (character_types scenario) n1) as [t1|] eqn:H1.
    + rewrite (find_character_Some _ _ _ H1). simpl.
      assert (name = n2) as <-.
      { rewrite !elem_of_cons in Hin.
        destruct Hin as [->|[->|Hin]]; [congruence | done | by apply elem_of_nil in Hin]. }
      rewrite (find_character_None _ _ Hnone). by eexists.
    + rewrite (find_character_None _ _ H1). by eexists.
  - intros Hin. destruct (dict_get (character_types scenario) n1) as [t1|] eqn:H1.
    + rewrite (find_character_Some _ _ _ H1). simpl.
      assert (name = n2) as <-.
      { rewrite !elem_of_cons in Hin.
        destruct Hin as [->|[->|Hin]]; [congruence | done | by apply elem_of_nil in Hin]. }
      rewrite (find_character_None _ _ Hnone). by eexists.
    + rewrite (find_character_None _ _ H1). by eexists.
  - intros [Hin|Hin]%elem_of_app.
    + destruct (IHa Hin) as [e ->]. by eexists.
    + destruct (evaluate_truth order a scenario); simpl; [|by eexists].
      destruct (IHb Hin) as [e ->]. by eexists.
  - intros [Hin|Hin]%elem_of_app.
    + destruct (IHa Hin) as [e ->]. by eexists.
    + destruct (evaluate_truth order a scenario); simpl; [|by eexists].
      destruct (IHb Hin) as [e ->]. by eexists.
Qed.
End unknown_names.

Lemma reached_members_decided {A : Type} (decided : A → bool) (names : A → list string)
    (members : list A) (member : A) (rest : list A) :
  decided member = true →
  reached_members decided names (members ++ member :: rest)
  = reached_members decided names (members ++ [member]).
Proof.
  intros Hmember. induction members as [|m members IH]; simpl.
  - by rewrite Hmember.
  - by rewrite IH.
Qed.

(** C4, as the code has it.  Evaluating a statement raises exactly when it
    reaches a name the scenario does not assign: a mentioned name that is not
    behind a member deciding a conjunction or disjunction of the statement.
    What is raised is [CharacterIdentifierError] for such a name, and when the
    speaker is a Knight or a Knave the consistency check raises the same
    exception, provided the check reaches the statement: the characters before
    the speaker pass, and the speaker's earlier statements are true.  When the
    speaker is a Monk the check goes on to the next character without
    evaluating anything, and a conjunction or disjunction answers at the first
    member that decides it, whatever the members behind it mention. *)
Theorem unknown_name_raises_when_reached :
  ∀ (order : list Identity) (scenario : Scenario)
    (before after : dict (list Statement)) (speaker : string) (t : Identity)
    (pre post : list Statement) (s : Statement),
    Forall (passes order scenario) before →
    dict_get (character_types scenario) speaker = Some t →
    Forall (fun p => evaluate_truth order p scenario = Ok true) pre →
    ((∃ e, evaluate_truth order s scenario = Err e)
     ↔ ∃ name, name ∈ reached_names order s scenario
               ∧ dict_get (character_types scenario) name = None)
    ∧ (∀ e, evaluate_truth order s scenario = Err e →
         (∃ missing, e = CharacterIdentifierError missing
                     ∧ missing ∈ reached_names order s scenario
                     ∧ missing ∈ referenced_names s
                     ∧ dict_get (character_types scenario) missing = None)
         ∧ (t ≠ Monk →
            _check_consistency order scenario
              (before ++ (speaker, pre ++ s :: post) :: after) = Err e))
    ∧ (short_circuit_free s = true → reached_names order s scenario = referenced_names s)
    ∧ (t = Monk →
       ∀ statements,
         _check_consistency order scenario (before ++ (speaker, statements) :: after)
         = _check_consistency order scenario after)
    ∧ (∀ members member rest,
         Forall (fun p => evaluate_truth order p scenario = Ok true) members →
         evaluate_truth order member scenario = Ok false →
         evaluate_truth order (ConjunctiveStatement (members ++ member :: rest)) scenario
         = Ok false
         ∧ reached_names order (ConjunctiveStatement (members ++ member :: rest)) scenario
           = reached_names order (ConjunctiveStatement (members ++ [member])) scenario)
    ∧ (∀ members member rest,
         Forall (fun p => evaluate_truth order p scenario = Ok false) members →
         evaluate_truth order member scenario = Ok true →
         evaluate_truth order (DisjunctiveStatement (members ++ member :: rest)) scenario
         = Ok true
         ∧ reached_names order (DisjunctiveStatement (members ++ member :: rest)) scenario
           = reached_names order (DisjunctiveStatement (members ++ [member])) scenario).
Proof.
  intros order scenario before after speaker t pre post s Hbefore Hspeaker Hpre.
  split; [|split; [|split; [|split; [|split]]]].
  - split.
    + intros [e (name & _ & Hin & Hnone)%evaluate_truth_Err_reached]. by exists name.
    + intros (name & Hin & Hnone). by apply (reached_names_raises _ _ _ name).
  - intros e He. split.
    + destruct (evaluate_truth_Err_reached _ _ _ _ He) as (missing & -> & Hin & Hnone).
      exists missing. repeat split; [done | by apply (reached_names_mentioned order scenario) | done].
    + intros Ht. rewrite (_check_consistency_app order scenario before _ Hbefore).
      rewrite (_check_consistency_cons order _ _ _ _ _ Hspeaker).
      destruct (joined_statement_raises order scenario pre s post _ Hpre He)
        as (statement & -> & Hstatement).
      unfold evaluate_consistency. rewrite decide_False by done.
      by rewrite Hstatement.
  - apply short_circuit_free_reached.
  - intros -> statements. rewrite (_check_consistency_app order scenario before _ Hbefore).
    rewrite (_check_consistency_cons order _ _ _ _ _ Hspeaker).
    by destruct (joined_statement statements).
  - intros members member rest Hmembers Hmember. split.
    + rewrite (ConjunctiveStatement_true_prefix _ _ _ _ Hmembers). simpl. by rewrite Hmember.
    + simpl. apply reached_members_decided. by rewrite Hmember.
  - intros members member rest Hmembers Hmember. split.
    + rewrite (DisjunctiveStatement_false_prefix _ _ _ _ Hmembers). simpl. by rewrite Hmember.
    + simpl. apply reached_members_decided. by rewrite Hmember.
Qed.

Lemma unknown_name_raises_when_reached_witness :
  _check_consistency POSSIBLE_CHARACTERS (Scenario_init [("A", Knight); ("B", Knave)])
    ([("A", [IsOfType "B" Knave])]
       ++ ("B", [TrueStatement]
                  ++ ConjunctiveStatement [IsOfType "Z" Knight; TrueStatement] :: [])
       :: [])
  = Err (CharacterIdentifierError "Z").
Proof.
  assert (Forall (passes POSSIBLE_CHARACTERS (Scenario_init [("A", Knight); ("B", Knave)]))
            [("A", [IsOfType "B" Knave])]) as Hbefore.
  { repeat constructor. exists Knight. split; reflexivity. }
  assert (Forall (fun p => evaluate_truth POSSIBLE_CHARACTERS p
                             (Scenario_init [("A", Knight); ("B", Knave)]) = Ok true)
            [TrueStatement]) as Hpre by repeat constructor.
  destruct (unknown_name_raises_when_reached POSSIBLE_CHARACTERS
              (Scenario_init [("A", Knight); ("B", Knave)])
              [("A", [IsOfType "B" Knave])] [] "B" Knave [TrueStatement] []
              (ConjunctiveStatement [IsOfType "Z" Knight; TrueStatement])
              Hbefore eq_refl Hpre) as (_ & Hraise & _).
  destruct (Hraise (CharacterIdentifierError "Z") eq_refl) as [_ Hcheck].
  apply Hcheck. discriminate.
Defined.

(** The unknown name "Z" goes unnoticed when a Monk utters the statement, and
    when an earlier member decides the disjunction or conjunction that holds
    it: the check answers instead of raising. *)
Lemma unknown_name_goes_unnoticed :
  let claim := IsOfType "Z" Knight in
  "Z" ∈ referenced_names claim
  ∧ dict_get (character_types (Scenario_init [("A", Monk)])) "Z" = None
  ∧ _check_consistency POSSIBLE_CHARACTERS (Scenario_init [("A", Monk)]) [("A", [claim])]
    = Ok (true, None)
  ∧ dict_get (character_types (Scenario_init [("A", Knight)])) "Z" = None
  ∧ evaluate_truth POSSIBLE_CHARACTERS (DisjunctiveStatement [TrueStatement; claim])
      (Scenario_init [("A", Knight)]) = Ok true
  ∧ _check_consistency POSSIBLE_CHARACTERS (Scenario_init [("A", Knight)])
      [("A", [DisjunctiveStatement [TrueStatement; claim]])] = Ok (true, None)
  ∧ evaluate_truth POSSIBLE_CHARACTERS (ConjunctiveStatement [Not TrueStatement; claim])
      (Scenario_init [("A", Knight)]) = Ok false
  ∧ _check_consistency POSSIBLE_CHARACTERS (Scenario_init [("A", Knight)])
      [("A", [Not TrueStatement; claim])]
    = Ok (false, Some ("A", ConjunctiveStatement [Not TrueStatement; claim])).
Proof.
  intros claim. split; [apply list_elem_of_singleton; reflexivity|].
  repeat split.
Qed.

(** ** Equality and hashing of scenarios *)

Section dict_equality.
Context {V : Type}.
Implicit Types d : dict V.

(** Dicts with the same items answer every lookup alike. *)
Lemma dict_get_Permutation d1 d2 k :
  dict_wf d1 → dict_wf d2 → d1 ≡ₚ d2 → dict_get d1 k = dict_get d2 k.
Proof.
  intros Hwf1 Hwf2 Hperm.
  destruct (dict_get d1 k) as [v|] eqn:H1.
  - symmetry. apply dict_get_elem; [done|].
    rewrite <- Hperm. by apply dict_get_Some_elem.
  - symmetry. apply dict_get_None. apply dict_get_None in H1.
    unfold dict_keys in *. by rewrite <- Hperm.
Qed.

Lemma dict_getitem_key d k : k ∈ dict_keys d → ∃ v, dict_getitem d k = Ok v.
Proof.
  intros Hk. unfold dict_getitem.
  destruct (dict_get d k) as [v|] eqn:Hget; [by eexists|].
  by apply dict_get_None in Hget.
Qed.
End dict_equality.

Lemma Scenario_eq_loop_true items other :
  Scenario_eq_loop items other = Ok true
  ↔ ∀ name t, (name, t) ∈ items → dict_get (character_types other) name = Some t.
Proof.
  induction items as [|[name t] items IH]; simpl.
  - split; [|done]. intros _ name t H. by apply elem_of_nil in H.
  - unfold dict_getitem.
    destruct (dict_get (character_types other) name) as [t'|] eqn:Hget; simpl.
    + case_decide as Hne.
      * split; [done|]. intros H. specialize (H name t (list_elem_of_here _ _)).
        congruence.
      * subst t'. rewrite IH. split.
        -- intros H name' t' [[= -> ->]|Hin]%elem_of_cons; auto.
        -- intros H name' t' Hin. apply H. by right.
    + split; [done|]. intros H. specialize (H name t (list_elem_of_here _ _)).
      congruence.
Qed.

(** [__eq__] answers [True] exactly for scenarios with the same items. *)
Lemma Scenario_eq_true self other :
  dict_wf (character_types self) → dict_wf (character_types other) →
  Scenario_eq self other = Ok true ↔ character_types self ≡ₚ character_types other.
Proof.
  intros Hself Hother. unfold Scenario_eq. split.
  - case_decide as Hlen; [done|].
    rewrite Scenario_eq_loop_true. intros Hsub.
    apply submseteq_length_Permutation; [|by rewrite Hlen].
    apply NoDup_submseteq.
    + by apply NoDup_fmap_1 with (f := fst).
    + intros [name t] Hin. by apply dict_get_Some_elem, Hsub.
  - intros Hperm. rewrite decide_False by (by rewrite Hperm; intros []).
    apply Scenario_eq_loop_true. intros name t Hin.
    apply dict_get_elem; [done|]. by rewrite <- Hperm.
Qed.

Lemma character_string_loop_ext d1 d2 names acc :
  (∀ k, dict_get d1 k = dict_get d2 k) →
  character_string_loop d1 names acc = character_string_loop d2 names acc.
Proof.
  intros Hget. revert acc. induction names as [|name names IH]; intros acc; simpl; [done|].
  unfold dict_getitem. rewrite Hget. destruct (dict_get d2 name); simpl; [apply IH | done].
Qed.

Lemma character_string_loop_Ok d names acc :
  Forall (fun name => name ∈ dict_keys d) names →
  ∃ text, character_string_loop d names acc = Ok text.
Proof.
  intros Hnames. revert acc.
  induction Hnames as [|name names Hname _ IH]; intros acc; simpl; [by eexists|].
  destruct (dict_getitem_key d name Hname) as [t ->]. simpl. apply IH.
Qed.

Lemma sorted_names_Permutation d1 d2 : d1 ≡ₚ d2 → sorted_names d1 = sorted_names d2.
Proof.
  intros Hperm. unfold sorted_names, dict_keys.
  apply (Sorted_unique String.le); [apply Sorted_merge_sort; apply _..|].
  by rewrite !merge_sort_Permutation, Hperm.
Qed.

(** In the package, scenarios with the same items hash the same text. *)
Lemma Scenario_character_string_Permutation self other :
  dict_wf (character_types self) → dict_wf (character_types other) →
  character_types self ≡ₚ character_types other →
  Scenario_character_string self = Scenario_character_string other
  ∧ ∃ text, Scenario_character_string self = Ok text.
Proof.
  intros Hself Hother Hperm. unfold Scenario_character_string. split.
  - rewrite (sorted_names_Permutation _ _ Hperm).
    apply character_string_loop_ext. intros k. by apply dict_get_Permutation.
  - apply character_string_loop_Ok. apply Forall_forall. intros name.
    unfold sorted_names. by rewrite merge_sort_Permutation.
Qed.

(** In the package, equal scenarios have equal hashes, whatever the order of
    insertion. *)
Lemma Scenario_hash_equal (hash : string → Z) self other :
  dict_wf (character_types self) → dict_wf (character_types other) →
  Scenario_eq self other = Ok true →
  Scenario_hash hash self = Scenario_hash hash other
  ∧ ∃ h, Scenario_hash hash self = Ok h.
Proof.
  intros Hself Hother Heq. apply Scenario_eq_true in Heq; [|done..].
  destruct (Scenario_character_string_Permutation self other Hself Hother Heq)
    as [Hsame [text Htext]].
  unfold Scenario_hash. rewrite <- Hsame, Htext. simpl. eauto.
Qed.

(** C8. In the older file the hashed text follows the order of insertion: the
    scenarios [A = Knight, B = Knave] and [B = Knave, A = Knight] are equal
    under [__eq__], yet [__hash__] hashes two different texts.  The package
    hashes the same text for both. *)
Theorem Scenario_hash_old_follows_insertion_order :
  ∀ hash : string → Z,
    let self := Scenario_init [("A", Knight); ("B", Knave)] in
    let other := Scenario_init [("B", Knave); ("A", Knight)] in
    Scenario_eq self other = Ok true
    ∧ character_types self ≡ₚ character_types other
    ∧ Scenario_hash_old hash self = hash "|A,K|B,V|"
    ∧ Scenario_hash_old hash other = hash "|B,V|A,K|"
    ∧ Scenario_character_string_old self ≠ Scenario_character_string_old other
    ∧ Scenario_hash hash self = Ok (hash "|A,K|B,V|")
    ∧ Scenario_hash hash other = Ok (hash "|A,K|B,V|").
Proof.
  intros hash self other. repeat split; try reflexivity.
  - apply perm_swap.
  - discriminate.
Qed.

(** ** Scenario generation *)

Lemma count_Monk_cons t ordering :
  count_Monk (t :: ordering) = (if decide (t = Monk) then 1 else 0) + count_Monk ordering.
Proof.
  unfold count_Monk. rewrite filter_cons. case_decide; simpl length; lia.
Qed.

Lemma count_Monk_nonneg ordering : 0 ≤ count_Monk ordering.
Proof. unfold count_Monk. lia. Qed.

Section generate_scenario_loop.
Variable max_num_monks : Z.

(** While the running count stays within the bound, the loop extends the
    dict by one item per name. *)
Lemma _generate_scenario_loop_Ok names :
  ∀ (ts seen : list Identity) (character_types : dict Identity) (monk_count : Z),
    length ts = length names →
    NoDup names →
    (∀ name, name ∈ names → name ∉ dict_keys character_types) →
    monk_count + count_Monk ts ≤ max_num_monks →
    _generate_scenario_loop max_num_monks (seen ++ ts) names character_types
      (length seen) monk_count
    = Ok (character_types ++ zip names ts).
Proof.
  induction names as [|name names IH]; intros ts seen ct mc Hlen Hnodup Hfresh Hbound.
  - simpl. by rewrite app_nil_r.
  - destruct ts as [|t ts]; [done|]. simpl in Hlen. simpl.
    rewrite list_lookup_middle by reflexivity.
    rewrite count_Monk_cons in Hbound. pose proof (count_Monk_nonneg ts).
    apply NoDup_cons in Hnodup as [Hname Hnodup].
    rewrite decide_False by (case_decide; lia).
    rewrite dict_setitem_fresh by (apply Hfresh; left).
    replace (seen ++ t :: ts) with ((seen ++ [t]) ++ ts) by (by rewrite <- app_assoc).
    replace (S (length seen)) with (length (seen ++ [t]))
      by (rewrite length_app; simpl; lia).
    rewrite IH.
    + by rewrite <- app_assoc.
    + lia.
    + done.
    + intros name' Hin. unfold dict_keys. rewrite fmap_app, elem_of_app.
      intros [Hct|Hx].
      * by apply (Hfresh name'); [right|].
      * apply list_elem_of_singleton in Hx. simpl in Hx. by subst.
    + case_decide; lia.
Qed.

(** Once the count of the whole ordering is above the bound, some round of
    the loop raises. *)
Lemma _generate_scenario_loop_Err names :
  ∀ (ts seen : list Identity) (character_types : dict Identity) (monk_count : Z),
    names ≠ [] →
    length ts = length names →
    monk_count + count_Monk ts > max_num_monks →
    ∃ c, _generate_scenario_loop max_num_monks (seen ++ ts) names character_types
           (length seen) monk_count
         = Err (TooManyMonksError c).
Proof.
  induction names as [|name names IH]; intros ts seen ct mc Hne Hlen Hbound; [done|].
  destruct ts as [|t ts]; [done|]. simpl in Hlen. simpl.
  rewrite list_lookup_middle by reflexivity.
  rewrite count_Monk_cons in Hbound.
  destruct (decide (_ > max_num_monks)) as [Hover|Hover]; [by eexists|].
  replace (seen ++ t :: ts) with ((seen ++ [t]) ++ ts) by (by rewrite <- app_assoc).
  replace (S (length seen)) with (length (seen ++ [t]))
    by (rewrite length_app; simpl; lia).
  apply IH.
  - intros ->. destruct ts; [|done]. unfold count_Monk in Hbound. simpl in Hbound.
    case_decide; lia.
  - lia.
  - case_decide; lia.
Qed.
End generate_scenario_loop.

Section generate_scenarios.
Variable self : Puzzle.
Hypothesis names_NoDup : NoDup (character_names self).

Lemma _generate_scenario_Ok ordering :
  length ordering = length (character_names self) →
  character_names self = [] ∨ count_Monk ordering ≤ max_num_monks self →
  _generate_scenario self ordering = Ok (assignment (character_names self) ordering).
Proof.
  intros Hlen Hcase. unfold _generate_scenario.
  destruct (character_names self) as [|name names] eqn:Hnames.
  - destruct ordering; [done | simpl in Hlen; lia].
  - destruct Hcase as [|Hbound]; [done|].
    pose proof (_generate_scenario_loop_Ok (max_num_monks self) (name :: names)
                  ordering [] [] 0 Hlen names_NoDup) as Hloop.
    simpl app in Hloop. simpl length in Hloop. rewrite Hloop; [done| |lia].
    intros name' _. apply not_elem_of_nil.
Qed.

Lemma _generate_scenario_Err ordering :
  character_names self ≠ [] →
  length ordering = length (character_names self) →
  count_Monk ordering > max_num_monks self →
  ∃ c, _generate_scenario self ordering = Err (TooManyMonksError c).
Proof.
  intros Hne Hlen Hbound. unfold _generate_scenario.
  destruct (_generate_scenario_loop_Err (max_num_monks self) (character_names self)
              ordering [] [] 0 Hne Hlen ltac:(lia)) as [c Hloop].
  simpl app in Hloop. simpl length in Hloop. rewrite Hloop. by exists c.
Qed.

(** The loop of [_generate_scenarios] keeps, in order, the orderings within
    the bound. *)
Lemma _generate_scenarios_loop_filter orderings :
  ∀ acc,
    character_names self ≠ [] →
    Forall (fun ordering => length ordering = length (character_names self)) orderings →
    _generate_scenarios_loop self orderings acc
    = Ok (acc ++ (assignment (character_names self)
                    <$> filter (fun ordering => count_Monk ordering ≤ max_num_monks self)
                          orderings)).
Proof.
  induction orderings as [|ordering orderings IH]; intros acc Hne Hall; simpl.
  - by rewrite app_nil_r.
  - apply Forall_cons in Hall as [Hlen Hall]. rewrite filter_cons.
    case_decide as Hbound.
    + rewrite (_generate_scenario_Ok ordering Hlen (or_intror Hbound)).
      rewrite IH by done. by rewrite fmap_cons, <- app_assoc.
    + destruct (_generate_scenario_Err ordering Hne Hlen ltac:(lia)) as [c ->].
      by apply IH.
Qed.
End generate_scenarios.

(** *** The product of identity pools *)

Lemma product_length {A : Type} (pool : list A) (n : nat) :
  Forall (fun ordering => length ordering = n) (product pool n).
Proof.
  induction n as [|n IH]; simpl.
  - by repeat constructor.
  - apply Forall_bind. apply Forall_forall. intros x _. simpl.
    apply Forall_fmap. eapply Forall_impl; [exact IH|]. simpl. intros ? ->. done.
Qed.

Lemma product_count {A : Type} (pool : list A) (n : nat) :
  length (product pool n) = (length pool ^ n)%nat.
Proof.
  induction n as [|n IH]; [done|]. simpl.
  assert (∀ l : list A, length (l ≫= (fun x => (x ::.) <$> product pool n))
                        = (length l * length pool ^ n)%nat) as Hbind.
  { induction l as [|x l IHl]; [done|].
    rewrite bind_cons, length_app, length_fmap, IHl, IH. simpl. lia. }
  by rewrite Hbind.
Qed.

Lemma product_Permutation {A : Type} (pool1 pool2 : list A) (n : nat) :
  pool1 ≡ₚ pool2 → product pool1 n ≡ₚ product pool2 n.
Proof.
  intros Hperm. induction n as [|n IH]; [done|]. simpl.
  assert (∀ (l : list A) (r1 r2 : list (list A)),
            r1 ≡ₚ r2 →
            l ≫= (fun x => (x ::.) <$> r1) ≡ₚ l ≫= (fun x => (x ::.) <$> r2)) as Hinner.
  { intros l r1 r2 Hr. induction l as [|x l IHl]; [done|].
    rewrite !bind_cons. by rewrite IHl, Hr. }
  rewrite Hperm. by apply Hinner.
Qed.

Lemma product_NoDup {A : Type} (pool : list A) (n : nat) :
  NoDup pool → NoDup (product pool n).
Proof.
  intros Hpool. induction n as [|n IH]; simpl.
  - apply NoDup_singleton.
  - apply NoDup_bind; [| |done].
    + intros x1 x2 y _ _ (y1 & -> & _)%list_elem_of_fmap (y2 & [= -> _] & _)%list_elem_of_fmap.
      done.
    + intros x _. by apply (NoDup_fmap_2 (x ::.)).
Qed.

(** Orderings without a monk are the product of the pool without [Monk]. *)
Lemma product_without_Monk (pool : list Identity) (n : nat) :
  filter (fun ordering => count_Monk ordering ≤ 0) (product pool n)
  = product (filter (fun c => c ≠ Monk) pool) n.
Proof.
  induction n as [|n IH]; [done|]. simpl. rewrite <- IH. clear IH.
  generalize (product pool n) as r. intros r.
  assert (∀ x : Identity,
            filter (fun ordering => count_Monk ordering ≤ 0) ((x ::.) <$> r)
            = if decide (x ≠ Monk)
              then (x ::.) <$> filter (fun ordering => count_Monk ordering ≤ 0) r
              else []) as Hhead.
  { intros x. destruct (decide (x ≠ Monk)) as [Hx|Hx].
    - induction r as [|o r IHr]; [done|].
      rewrite fmap_cons, !filter_cons, IHr, count_Monk_cons.
      rewrite (decide_False (P := x = Monk)) by done.
      destruct (decide (count_Monk o ≤ 0)).
      + by rewrite (decide_True (P := 0 + count_Monk o ≤ 0)) by lia.
      + by rewrite (decide_False (P := 0 + count_Monk o ≤ 0)) by lia.
    - apply dec_stable in Hx as ->. induction r as [|o r IHr]; [done|].
      rewrite fmap_cons, filter_cons, IHr, count_Monk_cons.
      pose proof (count_Monk_nonneg o).
      rewrite (decide_True (P := Monk = Monk)) by done.
      by rewrite (decide_False (P := 1 + count_Monk o ≤ 0)) by lia. }
  induction pool as [|x pool IHp]; [done|].
  rewrite bind_cons, filter_app, IHp, Hhead, filter_cons.
  by case_decide.
Qed.

Lemma _generate_scenarios_filter order self :
  NoDup (character_names self) →
  character_names self ≠ [] →
  _generate_scenarios order self
  = Ok (set_scenarios self
          (assignment (character_names self)
             <$> filter (fun ordering => count_Monk ordering ≤ max_num_monks self)
                   (product (identity_pool order self) (length (character_names self))))).
Proof.
  intros Hnodup Hne. unfold _generate_scenarios. fold (identity_pool order self).
  rewrite (_generate_scenarios_loop_filter self Hnodup _ [] Hne (product_length _ _)).
  done.
Qed.

Lemma _generate_scenarios_old_filter self :
  NoDup (character_names self) →
  character_names self ≠ [] →
  _generate_scenarios_old self
  = Ok (set_scenarios self
          (assignment (character_names self)
             <$> filter (fun ordering => count_Monk ordering ≤ max_num_monks self)
                   (product POSSIBLE_CHARACTERS (length (character_names self))))).
Proof.
  intros Hnodup Hne. unfold _generate_scenarios_old.
  rewrite (_generate_scenarios_loop_filter self Hnodup _ [] Hne (product_length _ _)).
  done.
Qed.

(** Removing [Monk] from the pool when the bound is 0 loses no ordering that
    is within the bound. *)
Lemma identity_pool_within_bound order self :
  order ≡ₚ POSSIBLE_CHARACTERS →
  ∀ n, filter (fun ordering => count_Monk ordering ≤ max_num_monks self)
         (product (identity_pool order self) n)
       ≡ₚ filter (fun ordering => count_Monk ordering ≤ max_num_monks self)
            (product POSSIBLE_CHARACTERS n).
Proof.
  intros Horder n. unfold identity_pool. case_decide as Hmax.
  - rewrite Hmax. rewrite <- product_without_Monk, list_filter_filter.
    rewrite (product_Permutation _ _ n Horder).
    by erewrite list_filter_iff; [reflexivity | intros o; simpl; tauto].
  - by rewrite (product_Permutation _ _ n Horder).
Qed.

Lemma identity_pool_NoDup order self :
  order ≡ₚ POSSIBLE_CHARACTERS → NoDup (identity_pool order self).
Proof.
  intros Horder.
  assert (NoDup order) as Hnodup.
  { rewrite Horder. compute_done. }
  unfold identity_pool. case_decide; [by apply NoDup_filter | done].
Qed.

(** Different orderings of the right length give different scenarios. *)
Lemma assignment_inj names ordering1 ordering2 :
  length ordering1 = length names → length ordering2 = length names →
  assignment names ordering1 = assignment names ordering2 → ordering1 = ordering2.
Proof.
  intros Hlen1 Hlen2 [= Hzip].
  rewrite <- (snd_zip names ordering1), <- (snd_zip names ordering2) by lia.
  by rewrite Hzip.
Qed.

Lemma Puzzle_init_names_NoDup input allow_monks :
  dict_wf input → NoDup (character_names (Puzzle_init input allow_monks)).
Proof. intros Hwf. by rewrite Puzzle_init_names. Qed.

(** C6, as the code has it.  For a puzzle with at least one character,
    [_generate_scenarios] stores, without repetition, exactly the assignments
    of the full product of the three identities whose monk count is within
    [max_num_monks].  With monks allowed their number is [3 ^ n] less the
    number of orderings above the bound, and the older file generates the
    same scenarios; with monks forbidden they are the product of the two
    other identities. *)
Theorem generate_scenarios_within_bound :
  ∀ (order : list Identity) (input : dict utterance) (allow_monks : bool),
    iteration_order order →
    dict_wf input →
    input ≠ [] →
    let self := Puzzle_init input allow_monks in
    let names := character_names self in
    let n := length names in
    let within := filter (fun ordering => count_Monk ordering ≤ max_num_monks self)
                    (product POSSIBLE_CHARACTERS n) in
    let above := filter (fun ordering => count_Monk ordering > max_num_monks self)
                   (product POSSIBLE_CHARACTERS n) in
    ∃ l, _generate_scenarios order self = Ok (set_scenarios self l)
         ∧ l ≡ₚ assignment names <$> within
         ∧ NoDup l
         ∧ if allow_monks
           then Z.of_nat (length l) = 3 ^ Z.of_nat n - Z.of_nat (length above)
                ∧ _generate_scenarios_old self
                  = Ok (set_scenarios self (assignment names <$> within))
           else l ≡ₚ assignment names <$> product [Knight; Knave] n.
Proof.
  intros order input allow_monks Horder Hwf Hinput self names n within above.
  assert (NoDup names) as Hnodup by by apply Puzzle_init_names_NoDup.
  assert (names ≠ []) as Hne.
  { unfold names, self. rewrite Puzzle_init_names. by destruct input. }
  exists (assignment names
            <$> filter (fun ordering => count_Monk ordering ≤ max_num_monks self)
                  (product (identity_pool order self) n)).
  split; [by apply _generate_scenarios_filter|].
  assert (length within = length (filter
            (fun ordering => count_Monk ordering ≤ max_num_monks self)
            (product (identity_pool order self) n))) as Hcount.
  { by rewrite (identity_pool_within_bound order self Horder n). }
  split; [|split].
  - by rewrite (identity_pool_within_bound order self Horder n).
  - apply NoDup_fmap_2_strong.
    + intros o1 o2 [_ Ho1]%list_elem_of_filter [_ Ho2]%list_elem_of_filter.
      pose proof (product_length (identity_pool order self) n) as Hlen.
      rewrite Forall_forall in Hlen. apply assignment_inj; by apply Hlen.
    + apply NoDup_filter, product_NoDup. by apply identity_pool_NoDup.
  - destruct allow_monks.
    + split; [|by apply _generate_scenarios_old_filter].
      rewrite length_fmap, <- Hcount.
      pose proof (filter_app_complement
                    (fun ordering => count_Monk ordering ≤ max_num_monks self)
                    (product POSSIBLE_CHARACTERS n)) as Hsplit.
      apply Permutation_length in Hsplit.
      rewrite length_app, product_count in Hsplit. fold within in Hsplit.
      assert (length above = length (filter
                (fun ordering => ¬ count_Monk ordering ≤ max_num_monks self)
                (product POSSIBLE_CHARACTERS n))) as ->.
      { unfold above. f_equal. apply list_filter_iff. intros o. lia. }
      change (length POSSIBLE_CHARACTERS) with 3%nat in Hsplit.
      replace (3 ^ Z.of_nat n) with (Z.of_nat (3 ^ n)) by (by rewrite Nat2Z.inj_pow).
      lia.
    + assert (max_num_monks self = 0) as Hmax.
      { unfold self. by rewrite Puzzle_init_max_num_monks. }
      rewrite (identity_pool_within_bound order self Horder n).
      rewrite Hmax. by rewrite product_without_Monk.
Qed.

Lemma generate_scenarios_within_bound_witness :
  ∃ l, _generate_scenarios [Monk; Knight; Knave]
         (Puzzle_init [("A", one_statement TrueStatement); ("B", statement_list [])] true)
       = Ok (set_scenarios
               (Puzzle_init [("A", one_statement TrueStatement); ("B", statement_list [])] true)
               l)
       ∧ l ≡ₚ assignment ["A"; "B"] <$> [[Knight; Knight]; [Knight; Knave];
                                          [Knave; Knight]; [Knave; Knave]]
       ∧ Z.of_nat (length l) = 3 ^ 2 - 5.
Proof.
  destruct (generate_scenarios_within_bound [Monk; Knight; Knave]
              [("A", one_statement TrueStatement); ("B", statement_list [])] true)
    as (l & Hgen & Hperm & _ & Hcount & _).
  - unfold iteration_order, POSSIBLE_CHARACTERS.
    apply (Permutation_cons_append [Knight; Knave] Monk).
  - unfold dict_wf. compute_done.
  - discriminate.
  - exists l. split; [exact Hgen|]. split; [exact Hperm | exact Hcount].
Defined.

(** Without characters the bound is -1 and no ordering is within it, yet the
    empty scenario is generated: one scenario, not [3 ^ 0 - 1 = 0]. *)
Lemma generate_scenarios_empty_puzzle :
  let self := Puzzle_init [] true in
  _generate_scenarios POSSIBLE_CHARACTERS self = Ok (set_scenarios self [Scenario_init []])
  ∧ filter (fun ordering => count_Monk ordering ≤ max_num_monks self)
      (product POSSIBLE_CHARACTERS 0) = []
  ∧ filter (fun ordering => count_Monk ordering > max_num_monks self)
      (product POSSIBLE_CHARACTERS 0) = [[]]
  ∧ Z.of_nat (length [Scenario_init []]) ≠ 3 ^ 0 - 1.
Proof. intros self. repeat split; try reflexivity. discriminate. Qed.

(** ** Solving a puzzle *)

(** Whatever the number of characters, the generated scenarios are
    assignments of orderings of the right length that are within the bound,
    or of the empty ordering. *)
Lemma _generate_scenarios_kept order self :
  NoDup (character_names self) →
  ∃ kept,
    _generate_scenarios order self
    = Ok (set_scenarios self (assignment (character_names self) <$> kept))
    ∧ Forall (fun ordering =>
                length ordering = length (character_names self)
                ∧ (character_names self = []
                   ∨ count_Monk ordering ≤ max_num_monks self)) kept.
Proof.
  intros Hnodup. destruct (character_names self) as [|name names] eqn:Hnames.
  - exists [[]]. split; [|repeat constructor].
    unfold _generate_scenarios. rewrite Hnames. simpl.
    unfold _generate_scenario. rewrite Hnames. done.
  - rewrite <- Hnames in *. eexists. split.
    + apply _generate_scenarios_filter; [done | by rewrite Hnames].
    + apply Forall_forall. intros o [Hbound Ho]%list_elem_of_filter. split; [|by right].
      pose proof (product_length (identity_pool order self) (length (character_names self)))
        as Hlen.
      rewrite Forall_forall in Hlen. by apply Hlen.
Qed.

Section check_scenarios.
Variable order : list Identity.
Variable self : Puzzle.

Lemma check_scenarios_loop_checked l l' :
  check_scenarios_loop order self l = Ok l' → Forall2 (checked order self) l l'.
Proof.
  revert l'. induction l as [|s l IH]; intros l'; simpl.
  - intros [= <-]. constructor.
  - unfold check_scenario, check_consistency.
    destruct (_check_consistency order s (character_statements self)) as [r|e] eqn:Hr;
      simpl; [|done].
    destruct (check_scenarios_loop order self l) as [rest|e]; simpl; [|done].
    intros [= <-]. constructor; [by exists r | by apply IH].
Qed.

(** The first exception of a check is the exception of the whole loop. *)
Lemma check_scenarios_loop_total l :
  (∃ l', check_scenarios_loop order self l = Ok l')
  ∨ (∃ e, check_scenarios_loop order self l = Err e).
Proof. destruct (check_scenarios_loop order self l); eauto. Qed.
End check_scenarios.

(** *** The set of consistent scenarios *)

Lemma set_add_elem ret scenario s :
  s ∈ set_add ret scenario → s ∈ ret ∨ s = scenario.
Proof.
  unfold set_add. destruct (existsb _ ret); [auto|].
  rewrite elem_of_app, list_elem_of_singleton. auto.
Qed.

Lemma set_add_subseteq ret scenario s : s ∈ ret → s ∈ set_add ret scenario.
Proof.
  unfold set_add. destruct (existsb _ ret); [done|]. rewrite elem_of_app. auto.
Qed.

Lemma set_add_present ret scenario :
  ∃ present, present ∈ set_add ret scenario
             ∧ (present = scenario ∨ Scenario_eq present scenario = Ok true).
Proof.
  unfold set_add. destruct (existsb _ ret) eqn:Hex.
  - apply existsb_exists in Hex as (present & Hin & Heq).
    exists present. split; [by apply list_elem_of_In|]. right.
    unfold answers_True in Heq. by destruct (Scenario_eq present scenario) as [[]|].
  - exists scenario. split; [|by left]. rewrite elem_of_app, list_elem_of_singleton. auto.
Qed.

Lemma get_consistent_scenario_set_loop_spec l :
  ∀ ret,
    Forall (fun s => is_Some (scenario_result s)) l →
    ∃ ret',
      get_consistent_scenario_set_loop l ret = Ok ret'
      ∧ (∀ s, s ∈ ret → s ∈ ret')
      ∧ (∀ s, s ∈ ret' → s ∈ ret ∨ (s ∈ l ∧ is_consistent s))
      ∧ (∀ s, s ∈ l → is_consistent s →
           ∃ present, present ∈ ret'
                      ∧ (present = s ∨ Scenario_eq present s = Ok true)).
Proof.
  induction l as [|s l IH]; intros ret Hall; simpl.
  - exists ret. repeat split; [auto..|]. intros s H. by apply elem_of_nil in H.
  - apply Forall_cons in Hall as [[[b reason] Hs] Hall]. rewrite Hs.
    destruct (IH (if b then set_add ret s else ret) Hall)
      as (ret' & -> & Hmono & Hfrom & Hall').
    exists ret'. split; [done|]. split; [|split].
    + intros s' Hs'. apply Hmono. destruct b; [by apply set_add_subseteq | done].
    + intros s' [Hs'|[Hs' Hcons]]%Hfrom.
      * destruct b; [|by left].
        apply set_add_elem in Hs' as [Hs'| ->]; [by left|].
        right. split; [by left|]. unfold is_consistent. by rewrite Hs.
      * right. split; [by right | done].
    + intros s' [->|Hs']%elem_of_cons Hcons; [|by apply Hall'].
      unfold is_consistent in Hcons. rewrite Hs in Hcons. simpl in Hcons.
      injection Hcons as ->.
      destruct (set_add_present ret s) as (present & Hin & Heq).
      exists present. split; [by apply Hmono | done].
Qed.


(** The monks of a scenario, counted over its items. *)
Lemma count_monks_filter scenario :
  count_monks scenario
  = Z.of_nat (length (filter (fun item => item.2 = Monk) (character_types scenario))).
Proof.
  unfold count_monks.
  assert (∀ (l : dict Identity) (acc : Z),
            fold_left (fun monks '(name, kind) =>
                         if decide (kind = Monk) then monks + 1 else monks) l acc
            = acc + Z.of_nat (length (filter (fun item => item.2 = Monk) l))) as Hfold.
  { induction l as [|[name kind] l IH]; intros acc; simpl; [lia|].
    rewrite IH, filter_cons. simpl. case_decide; simpl length; lia. }
  by rewrite Hfold.
Qed.


Lemma count_monks_assignment names ordering :
  length ordering = length names →
  count_monks (assignment names ordering) = count_Monk ordering.
Proof.
  intros Hlen. rewrite count_monks_filter. unfold count_Monk, assignment. simpl.
  rewrite <- (snd_zip names ordering) at 2 by lia.
  generalize (zip names ordering) as l. intros l. f_equal.
  induction l as [|[name kind] l IH]; [done|].
  rewrite fmap_cons, !filter_cons. simpl. case_decide; simpl; by rewrite IH.
Qed.

Lemma checked_well_checked order self kept l' :
  NoDup (character_names self) →
  Forall (fun ordering =>
            length ordering = length (character_names self)
            ∧ (character_names self = [] ∨ count_Monk ordering ≤ max_num_monks self)) kept →
  Forall2 (checked order self) (assignment (character_names self) <$> kept) l' →
  Forall (well_checked self) l'.
Proof.
  intros Hnodup Hkept Hchecked. rewrite Forall2_fmap_l in Hchecked.
  revert Hkept.
  induction Hchecked as [|o s' os ss (r & _ & ->) _ IH]; intros Hkept; [constructor|].
  apply Forall_cons in Hkept as [[Hlen Hbound] Hkept].
  constructor; [|by apply IH]. split; [|split].
  - unfold dict_wf, dict_keys. simpl. rewrite fst_zip by lia. done.
  - by eexists.
  - intros Hmax.
    change (count_monks (assignment (character_names self) o) = 0).
    rewrite (count_monks_assignment _ _ Hlen).
    pose proof (count_Monk_nonneg o). destruct Hbound as [Hnil|Hbound]; [|lia].
    rewrite Hnil in Hlen. by destruct o.
Qed.

(** *** What solving keeps of the scenarios *)













(** * Further properties of the code *)

(** ** Evaluation of statements *)

(** X1. [evaluate_truth] either answers or raises [CharacterIdentifierError]
    for a name that the statement mentions and the scenario does not assign;
    it raises nothing else, and nothing at all when the scenario assigns every
    name the statement mentions. *)
Theorem evaluate_truth_answers_or_names_unknown :
  ∀ (order : list Identity) (scenario : Scenario) (statement : Statement),
    ((∃ truth, evaluate_truth order statement scenario = Ok truth)
     ∨ (∃ name, evaluate_truth order statement scenario = Err (CharacterIdentifierError name)
                ∧ name ∈ referenced_names statement
                ∧ dict_get (character_types scenario) name = None))
    ∧ ((∀ name, name ∈ referenced_names statement →
                dict_get (character_types scenario) name ≠ None) →
       ∃ truth, evaluate_truth order statement scenario = Ok truth).
Proof.
  intros order scenario statement.
  destruct (evaluate_truth order statement scenario) as [truth|e] eqn:Heval.
  - split; [left|]; by exists truth.
  - destruct (evaluate_truth_Err order scenario statement e Heval)
      as (name & -> & Hin & Hnone).
    split.
    + right. by exists name.
    + intros Hassigned. by destruct (Hassigned name Hin).
Qed.

(** X2. De Morgan's laws hold as equations between evaluations, exceptions
    included: negating a conjunction is the disjunction of the negated
    members, and negating a disjunction the conjunction of them. *)
Theorem evaluate_truth_De_Morgan :
  ∀ (order : list Identity) (scenario : Scenario) (statements : list Statement),
    evaluate_truth order (Not (ConjunctiveStatement statements)) scenario
    = evaluate_truth order (DisjunctiveStatement (Not <$> statements)) scenario
    ∧ evaluate_truth order (Not (DisjunctiveStatement statements)) scenario
      = evaluate_truth order (ConjunctiveStatement (Not <$> statements)) scenario.
Proof.
  intros order scenario statements. split.
  - induction statements as [|s l IH]; [done|].
    simpl in *. destruct (evaluate_truth order s scenario) as [[]|e]; simpl; done.
  - induction statements as [|s l IH]; [done|].
    simpl in *. destruct (evaluate_truth order s scenario) as [[]|e]; simpl; done.
Qed.

(** X3. [IfConnective] and [ExclusiveOrConnective] evaluate both operands
    before combining them: they answer material implication and exclusive or of
    the two truth values, and an exception of the second operand is raised even
    when the first operand alone would decide an implication. *)
Theorem connectives_evaluate_both_operands :
  ∀ (order : list Identity) (scenario : Scenario) (a b : Statement) (ta : bool),
    evaluate_truth order a scenario = Ok ta →
    (∀ tb, evaluate_truth order b scenario = Ok tb →
           evaluate_truth order (IfConnective a b) scenario = Ok (implb ta tb)
           ∧ evaluate_truth order (ExclusiveOrConnective a b) scenario = Ok (xorb ta tb))
    ∧ (∀ e, evaluate_truth order b scenario = Err e →
            evaluate_truth order (IfConnective a b) scenario = Err e
            ∧ evaluate_truth order (ExclusiveOrConnective a b) scenario = Err e
            ∧ evaluate_truth order (IfConnective b a) scenario = Err e).
Proof.
  intros order scenario a b ta Ha. split.
  - intros tb Hb. simpl. rewrite Ha, Hb. simpl. by destruct ta, tb.
  - intros e Hb. simpl. by rewrite Ha, Hb.
Qed.

Lemma connectives_evaluate_both_operands_witness :
  evaluate_truth POSSIBLE_CHARACTERS (IfConnective (Not TrueStatement) (IsOfType "Z" Knight))
    (Scenario_init [("A", Knight)])
  = Err (CharacterIdentifierError "Z").
Proof.
  refine (proj1 (proj2 (connectives_evaluate_both_operands POSSIBLE_CHARACTERS
            (Scenario_init [("A", Knight)]) (Not TrueStatement) (IsOfType "Z" Knight)
            false _) (CharacterIdentifierError "Z") _)); reflexivity.
Defined.

(** X4. When every member can be evaluated, a conjunction is true exactly
    when all members are, and a disjunction exactly when some member is; the
    empty conjunction is true and the empty disjunction false. *)
Theorem combiners_of_evaluated_members :
  ∀ (order : list Identity) (scenario : Scenario)
    (statements : list Statement) (truths : list bool),
    Forall2 (fun s truth => evaluate_truth order s scenario = Ok truth) statements truths →
    evaluate_truth order (ConjunctiveStatement statements) scenario
    = Ok (forallb id truths)
    ∧ evaluate_truth order (DisjunctiveStatement statements) scenario
      = Ok (existsb id truths).
Proof.
  intros order scenario statements truths Hall.
  induction Hall as [|s truth l truths Hs _ [IHc IHd]]; [done|].
  simpl in *. rewrite Hs. simpl. by destruct truth.
Qed.

Lemma combiners_of_evaluated_members_witness :
  evaluate_truth POSSIBLE_CHARACTERS
    (ConjunctiveStatement [TrueStatement; IsOfType "A" Knave]) (Scenario_init [("A", Knight)])
  = Ok false
  ∧ evaluate_truth POSSIBLE_CHARACTERS
      (DisjunctiveStatement [TrueStatement; IsOfType "A" Knave]) (Scenario_init [("A", Knight)])
    = Ok true.
Proof.
  apply (combiners_of_evaluated_members POSSIBLE_CHARACTERS (Scenario_init [("A", Knight)])
           [TrueStatement; IsOfType "A" Knave] [true; false]).
  repeat constructor.
Defined.

(** X5. Nesting does not change a conjunction or a disjunction: combining two
    combiners evaluates like combining all their members in one, exceptions
    included. *)
Theorem combiners_flatten :
  ∀ (order : list Identity) (scenario : Scenario) (l1 l2 : list Statement),
    evaluate_truth order
      (ConjunctiveStatement [ConjunctiveStatement l1; ConjunctiveStatement l2]) scenario
    = evaluate_truth order (ConjunctiveStatement (l1 ++ l2)) scenario
    ∧ evaluate_truth order
        (DisjunctiveStatement [DisjunctiveStatement l1; DisjunctiveStatement l2]) scenario
      = evaluate_truth order (DisjunctiveStatement (l1 ++ l2)) scenario.
Proof.
  intros order scenario l1 l2. split.
  - induction l1 as [|s l1 IH].
    + simpl. by destruct (combiner_evaluate_truth _ _ _ l2) as [[]|].
    + simpl in *. destruct (evaluate_truth order s scenario) as [[]|e]; simpl; done.
  - induction l1 as [|s l1 IH].
    + simpl. by destruct (combiner_evaluate_truth _ _ _ l2) as [[]|].
    + simpl in *. destruct (evaluate_truth order s scenario) as [[]|e]; simpl; done.
Qed.

(** ** Counting statements *)

Lemma count_of_type_filter scenario c :
  count_of_type scenario c
  = Z.of_nat (length (filter (fun t => t = c) (dict_values (character_types scenario)))).
Proof.
  unfold count_of_type.
  assert (∀ (l : list Identity) (acc : Z),
            fold_left (fun count t => if decide (t = c) then count + 1 else count) l acc
            = acc + Z.of_nat (length (filter (fun t => t = c) l))) as Hfold.
  { induction l as [|t l IH]; intros acc; simpl; [lia|].
    rewrite IH, filter_cons. case_decide; simpl length; lia. }
  by rewrite Hfold.
Qed.

(** X6. The counts of the three identities in a scenario are never negative
    and add up to the number of characters, so a count is never above that
    number; [CountOfType] compares exactly that count with the claimed one. *)
Theorem counts_add_up :
  ∀ (order : list Identity) (scenario : Scenario),
    let n := Z.of_nat (length (character_types scenario)) in
    count_of_type scenario Knight + count_of_type scenario Knave
    + count_of_type scenario Monk = n
    ∧ (∀ c, 0 ≤ count_of_type scenario c ∧ count_of_type scenario c ≤ n)
    ∧ (∀ c k, n < k →
         evaluate_truth order (CountOfType c k op_ge) scenario = Ok false
         ∧ evaluate_truth order (CountOfType c k op_lt) scenario = Ok true).
Proof.
  intros order scenario n.
  assert (count_of_type scenario Knight + count_of_type scenario Knave
          + count_of_type scenario Monk = n) as Hsum.
  { rewrite !count_of_type_filter. unfold n, dict_values.
    rewrite <- (length_fmap snd (character_types scenario)).
    generalize (snd <$> character_types scenario) as l. intros l.
    induction l as [|t l IH]; [done|].
    rewrite !filter_cons. destruct t; simpl in *; lia. }
  assert (∀ c, 0 ≤ count_of_type scenario c) as Hnonneg.
  { intros c. rewrite count_of_type_filter. lia. }
  assert (∀ c, count_of_type scenario c ≤ n) as Hle.
  { intros c. pose proof (Hnonneg Knight). pose proof (Hnonneg Knave).
    pose proof (Hnonneg Monk). destruct c; lia. }
  split; [done|]. split; [by split|].
  intros c k Hk. simpl. unfold CountOfType_evaluate_truth. simpl.
  specialize (Hle c).
  rewrite bool_decide_eq_false_2 by lia. by rewrite bool_decide_eq_true_2 by lia.
Qed.

Lemma combiner_evaluate_truth_existsb {A : Type} (f : A → bool) (l : list A) :
  combiner_evaluate_truth disjunctive_for_each_statement disjunctive_default_value
    (fun x => Ok (f x)) l
  = Ok (existsb f l).
Proof.
  induction l as [|x l IH]; [done|]. simpl in *. by destruct (f x).
Qed.

Lemma existsb_Permutation {A : Type} (f : A → bool) (l1 l2 : list A) :
  l1 ≡ₚ l2 → existsb f l1 = existsb f l2.
Proof.
  induction 1 as [|x l1 l2 _ IH|x y l|l1 l2 l3 _ IH1 _ IH2]; simpl.
  - done.
  - by rewrite IH.
  - by destruct (f x), (f y).
  - by rewrite IH1.
Qed.

(** X7. [SamenessCount] answers whether some identity has a count in the
    claimed relation to the claimed count.  It evaluates like the disjunction
    of the three [CountOfType] statements it builds, never raises, and its
    answer does not depend on the order in which the set of identities is
    iterated. *)
Theorem SamenessCount_is_order_independent :
  ∀ (order : list Identity) (scenario : Scenario) (k : Z) (r : Relation),
    iteration_order order →
    evaluate_truth order (SamenessCount k r) scenario
    = Ok (CountOfType_evaluate_truth scenario Knight k r
          || CountOfType_evaluate_truth scenario Knave k r
          || CountOfType_evaluate_truth scenario Monk k r)
    ∧ evaluate_truth order (SamenessCount k r) scenario
      = evaluate_truth order
          (DisjunctiveStatement ((fun kind => CountOfType kind k r) <$> order)) scenario.
Proof.
  intros order scenario k r Horder. split.
  - simpl. rewrite combiner_evaluate_truth_existsb.
    rewrite (existsb_Permutation _ _ _ Horder). simpl. by rewrite orb_false_r, orb_assoc.
  - simpl. generalize order at 1 3 as l. intros l.
    induction l as [|kind l IH]; [done|].
    simpl in *. by destruct (CountOfType_evaluate_truth scenario kind k r).
Qed.

Lemma SamenessCount_is_order_independent_witness :
  evaluate_truth [Monk; Knight; Knave] (SamenessCount 2 op_ge)
    (Scenario_init [("A", Knave); ("B", Knight); ("C", Knave)])
  = Ok (CountOfType_evaluate_truth
          (Scenario_init [("A", Knave); ("B", Knight); ("C", Knave)]) Knight 2 op_ge
        || CountOfType_evaluate_truth
             (Scenario_init [("A", Knave); ("B", Knight); ("C", Knave)]) Knave 2 op_ge
        || CountOfType_evaluate_truth
             (Scenario_init [("A", Knave); ("B", Knight); ("C", Knave)]) Monk 2 op_ge).
Proof.
  apply (SamenessCount_is_order_independent [Monk; Knight; Knave]).
  apply (Permutation_cons_append [Knight; Knave] Monk).
Defined.

(** ** Statements about two characters *)

(** X8. For two assigned characters exactly one of "same as", "honesty less
    than" and "honesty more than" is true; "same as" is symmetric and the two
    honesty statements are each other's converse. *)
Theorem IsSameAs_Honesty_trichotomy :
  ∀ (order : list Identity) (scenario : Scenario) (a b : string) (ta tb : Identity),
    dict_get (character_types scenario) a = Some ta →
    dict_get (character_types scenario) b = Some tb →
    ∃ same less more,
      evaluate_truth order (IsSameAs a b) scenario = Ok same
      ∧ evaluate_truth order (Honesty a b op_lt) scenario = Ok less
      ∧ evaluate_truth order (Honesty a b op_gt) scenario = Ok more
      ∧ evaluate_truth order (IsSameAs b a) scenario = Ok same
      ∧ evaluate_truth order (Honesty b a op_gt) scenario = Ok less
      ∧ evaluate_truth order (Honesty b a op_lt) scenario = Ok more
      ∧ (same = true ↔ ta = tb)
      ∧ (same, less, more) ∈ [(true, false, false); (false, true, false); (false, false, true)].
Proof.
  intros order scenario a b ta tb Ha Hb. simpl.
  rewrite (find_character_Some _ _ _ Ha), (find_character_Some _ _ _ Hb). simpl.
  eexists _, _, _. repeat split; try reflexivity.
  - destruct ta, tb; done.
  - destruct ta, tb; done.
  - destruct ta, tb; done.
  - by intros ?%bool_decide_eq_true_1.
  - intros ->. by apply bool_decide_eq_true_2.
  - destruct ta, tb; compute_done.
Qed.

Lemma IsSameAs_Honesty_trichotomy_witness :
  ∃ same less more,
    evaluate_truth POSSIBLE_CHARACTERS (IsSameAs "A" "B")
      (Scenario_init [("A", Monk); ("B", Knight)]) = Ok same
    ∧ evaluate_truth POSSIBLE_CHARACTERS (Honesty "A" "B" op_lt)
        (Scenario_init [("A", Monk); ("B", Knight)]) = Ok less
    ∧ evaluate_truth POSSIBLE_CHARACTERS (Honesty "A" "B" op_gt)
        (Scenario_init [("A", Monk); ("B", Knight)]) = Ok more
    ∧ (same, less, more) ∈ [(true, false, false); (false, true, false); (false, false, true)].
Proof.
  destruct (IsSameAs_Honesty_trichotomy POSSIBLE_CHARACTERS
              (Scenario_init [("A", Monk); ("B", Knight)]) "A" "B" Monk Knight)
    as (same & less & more & H1 & H2 & H3 & _ & _ & _ & _ & H4); [reflexivity..|].
  exists same, less, more. split; [exact H1|]. split; [exact H2|]. split; [exact H3 | exact H4].
Defined.

(** X9. [lookup] answers the identities of the keys, in order, when the
    scenario assigns them all; otherwise it raises
    [CharacterIdentifierError] for the first key that is not assigned. *)
Theorem lookup_keys_first_unknown :
  ∀ (scenario : Scenario) (keys : list string),
    match lookup_keys scenario keys with
    | Ok kinds =>
        Forall2 (fun key kind => dict_get (character_types scenario) key = Some kind)
          keys kinds
    | Err e =>
        ∃ found key rest,
          keys = found ++ key :: rest
          ∧ e = CharacterIdentifierError key
          ∧ dict_get (character_types scenario) key = None
          ∧ Forall (fun k => dict_get (character_types scenario) k ≠ None) found
    end.
Proof.
  intros scenario keys. induction keys as [|key keys IH]; simpl; [constructor|].
  destruct (dict_get (character_types scenario) key) as [t|] eqn:Hkey.
  - rewrite (find_character_Some _ _ _ Hkey). simpl.
    destruct (lookup_keys scenario keys) as [kinds|e]; simpl.
    + by constructor.
    + destruct IH as (found & key' & rest & -> & -> & Hnone & Hfound).
      exists (key :: found), key', rest. repeat split; [done|].
      constructor; [congruence | done].
  - rewrite (find_character_None _ _ Hkey). simpl.
    exists [], key, keys. repeat split; [done | constructor].
Qed.

(** ** What a character can say about itself *)

(** X10. A character that calls itself a Knave is consistent only as a Monk,
    and a character that calls itself a Knight is consistent under every
    identity: neither a Knight nor a Knave can say "I am a Knave". *)
Theorem self_description :
  ∀ (order : list Identity) (scenario : Scenario) (name : string) (t : Identity),
    dict_get (character_types scenario) name = Some t →
    evaluate_consistency order (IsOfType name Knave) t scenario = Ok (bool_decide (t = Monk))
    ∧ evaluate_consistency order (IsOfType name Knight) t scenario = Ok true
    ∧ _check_consistency order scenario [(name, [IsOfType name Knave])]
      = Ok (if decide (t = Monk) then (true, None)
            else (false, Some (name, IsOfType name Knave))).
Proof.
  intros order scenario name t Ht.
  assert (evaluate_consistency order (IsOfType name Knave) t scenario
          = Ok (bool_decide (t = Monk))) as Hknave.
  { unfold evaluate_consistency. simpl. rewrite (find_character_Some _ _ _ Ht).
    by destruct t. }
  split; [done|]. split.
  - unfold evaluate_consistency. simpl. rewrite (find_character_Some _ _ _ Ht).
    by destruct t.
  - rewrite (_check_consistency_cons order _ _ _ _ _ Ht). simpl joined_statement.
    cbv beta iota. rewrite Hknave. simpl. by destruct t.
Qed.

Lemma self_description_witness :
  evaluate_consistency POSSIBLE_CHARACTERS (IsOfType "A" Knave) Knave
    (Scenario_init [("A", Knave)])
  = Ok (bool_decide (Knave = Monk)).
Proof.
  apply (self_description POSSIBLE_CHARACTERS (Scenario_init [("A", Knave)]) "A" Knave).
  reflexivity.
Defined.

(** ** The consistency check as a whole *)

Lemma _check_consistency_true order scenario cs :
  _check_consistency order scenario cs = Ok (true, None)
  ↔ Forall (passes order scenario) cs.
Proof.
  split.
  - induction cs as [|[name statements] cs IH]; [constructor|]. simpl.
    unfold dict_getitem.
    destruct (dict_get (character_types scenario) name) as [t|] eqn:Ht; simpl; [|done].
    destruct (joined_statement statements) as [statement|] eqn:Hjoin.
    + destruct (evaluate_consistency order statement t scenario) as [[]|] eqn:Hcons;
        simpl; [|done..].
      intros Hrest. constructor; [|by apply IH].
      exists t. simpl. by rewrite Hjoin.
    + intros Hrest. constructor; [|by apply IH].
      exists t. simpl. by rewrite Hjoin.
  - intros Hall. rewrite <- (app_nil_r cs).
    by rewrite (_check_consistency_app order scenario cs [] Hall).
Qed.

(** X11. A scenario is consistent exactly when every character of the puzzle
    passes on its own, so the verdict "consistent" does not depend on the order
    of the characters.  An answer is either [(True, None)] or [False] with the
    name and the joined statement of a character of the puzzle whose
    projection is false. *)
Theorem check_consistency_all_pass :
  ∀ (order : list Identity) (scenario : Scenario)
    (character_statements : dict (list Statement)),
    (_check_consistency order scenario character_statements = Ok (true, None)
     ↔ Forall (passes order scenario) character_statements)
    ∧ (∀ other, character_statements ≡ₚ other →
         _check_consistency order scenario character_statements = Ok (true, None) →
         _check_consistency order scenario other = Ok (true, None))
    ∧ (∀ consistent reason,
         _check_consistency order scenario character_statements = Ok (consistent, reason) →
         (consistent = true ∧ reason = None)
         ∨ (consistent = false
            ∧ ∃ name statements statement t,
                (name, statements) ∈ character_statements
                ∧ joined_statement statements = Some statement
                ∧ dict_get (character_types scenario) name = Some t
                ∧ evaluate_consistency order statement t scenario = Ok false
                ∧ reason = Some (name, statement))).
Proof.
  intros order scenario cs.
  split; [apply _check_consistency_true|]. split.
  - intros other Hperm Hcs. apply _check_consistency_true. rewrite <- Hperm.
    by apply _check_consistency_true.
  - induction cs as [|[name statements] cs IH]; intros consistent reason; simpl.
    + intros [= <- <-]. by left.
    + unfold dict_getitem.
      destruct (dict_get (character_types scenario) name) as [t|] eqn:Ht; simpl; [|done].
      assert (∀ consistent reason,
                _check_consistency order scenario cs = Ok (consistent, reason) →
                consistent = true ∧ reason = None
                ∨ consistent = false
                  ∧ ∃ name0 statements0 statement t0,
                      (name0, statements0) ∈ (name, statements) :: cs
                      ∧ joined_statement statements0 = Some statement
                      ∧ dict_get (character_types scenario) name0 = Some t0
                      ∧ evaluate_consistency order statement t0 scenario = Ok false
                      ∧ reason = Some (name0, statement)) as Hrest.
      { intros c r [?|(-> & n0 & st0 & s0 & t0 & Hin & ?)]%IH; [by left|].
        right. split; [done|]. exists n0, st0, s0, t0. split; [by right | done]. }
      destruct (joined_statement statements) as [statement|] eqn:Hjoin; [|by apply Hrest].
      destruct (evaluate_consistency order statement t scenario) as [[]|] eqn:Hcons;
        simpl; [by apply Hrest | | done].
      intros [= <- <-]. right. split; [done|].
      exists name, statements, statement, t. split; [by left | done].
Qed.

(** X12. A character of the puzzle that the scenario does not assign makes
    the check raise [KeyError] for its name as soon as the check reaches it,
    also when that character says nothing. *)
Theorem unassigned_speaker_raises_KeyError :
  ∀ (order : list Identity) (scenario : Scenario) (before after : dict (list Statement))
    (name : string) (statements : list Statement),
    Forall (passes order scenario) before →
    dict_get (character_types scenario) name = None →
    _check_consistency order scenario (before ++ (name, statements) :: after)
    = Err (KeyError name).
Proof.
  intros order scenario before after name statements Hbefore Hname.
  rewrite (_check_consistency_app order scenario before _ Hbefore). simpl.
  unfold dict_getitem. by rewrite Hname.
Qed.

Lemma unassigned_speaker_raises_KeyError_witness :
  _check_consistency POSSIBLE_CHARACTERS (Scenario_init [("A", Knight)])
    ([("A", [TrueStatement])] ++ ("B", []) :: [])
  = Err (KeyError "B").
Proof.
  apply (unassigned_speaker_raises_KeyError POSSIBLE_CHARACTERS (Scenario_init [("A", Knight)])
           [("A", [TrueStatement])] [] "B" []).
  - repeat constructor. exists Knight. split; reflexivity.
  - reflexivity.
Defined.

(** *** The stored result *)

Lemma combiner_evaluate_truth_ext {A : Type} for_each default
    (f g : A → result bool) (l : list A) :
  Forall (fun x => f x = g x) l →
  combiner_evaluate_truth for_each default f l = combiner_evaluate_truth for_each default g l.
Proof.
  induction 1 as [|x l Hx _ IH]; [done|]. simpl. rewrite Hx.
  destruct (g x) as [truth|]; simpl; [|done]. by destruct (for_each truth).
Qed.

(** Evaluation reads the assignment of a scenario and nothing else. *)
Lemma evaluate_truth_character_types order statement s1 s2 :
  character_types s1 = character_types s2 →
  evaluate_truth order statement s1 = evaluate_truth order statement s2.
Proof.
  intros Hsame.
  assert (∀ name, find_character s1 name = find_character s2 name) as Hfind.
  { intros name. unfold find_character. by rewrite Hsame. }
  induction statement as
    [|l IH|l IH|s IH|n c|n1 n2|n1 n2 r|c k r|a b IHa IHb|a b IHa IHb|k r]
    using Statement_nested_ind; simpl.
  - done.
  - by apply combiner_evaluate_truth_ext.
  - by apply combiner_evaluate_truth_ext.
  - by rewrite IH.
  - by rewrite Hfind.
  - by rewrite !Hfind.
  - by rewrite !Hfind.
  - unfold CountOfType_evaluate_truth, count_of_type. by rewrite Hsame.
  - by rewrite IHa, IHb.
  - by rewrite IHa, IHb.
  - apply combiner_evaluate_truth_ext. apply Forall_forall. intros kind _.
    unfold CountOfType_evaluate_truth, count_of_type. by rewrite Hsame.
Qed.

Lemma _check_consistency_character_types order s1 s2 cs :
  character_types s1 = character_types s2 →
  _check_consistency order s1 cs = _check_consistency order s2 cs.
Proof.
  intros Hsame. induction cs as [|[name statements] cs IH]; [done|]. simpl.
  rewrite Hsame. destruct (dict_getitem (character_types s2) name) as [t|]; simpl; [|done].
  destruct (joined_statement statements) as [statement|]; [|done].
  unfold evaluate_consistency.
  rewrite (evaluate_truth_character_types order statement s1 s2 Hsame).
  by rewrite IH.
Qed.

(** X13. Checking a scenario stores the answer on it and leaves its
    assignment alone, and checking the checked scenario again gives the same
    answer and the same scenario: the stored result never feeds back into the
    check. *)
Theorem check_consistency_idempotent :
  ∀ (order : list Identity) (scenario scenario' : Scenario)
    (character_statements : dict (list Statement)) (r : bool * option Reason),
    check_consistency order scenario character_statements = Ok (r, scenario') →
    character_types scenario' = character_types scenario
    ∧ scenario_result scenario' = Some r
    ∧ check_consistency order scenario' character_statements = Ok (r, scenario').
Proof.
  intros order scenario scenario' cs r. unfold check_consistency.
  destruct (_check_consistency order scenario cs) as [r'|e] eqn:Hcheck; simpl; [|done].
  intros [= <- <-]. split; [done|]. split; [done|].
  rewrite (_check_consistency_character_types order _ scenario cs) by done.
  by rewrite Hcheck.
Qed.

Lemma check_consistency_idempotent_witness :
  let scenario := Scenario_init [("A", Knave)] in
  let scenario' := mkScenario [("A", Knave)] (Some (false, Some ("A", TrueStatement))) in
  check_consistency POSSIBLE_CHARACTERS scenario' [("A", [TrueStatement])]
  = Ok ((false, Some ("A", TrueStatement)), scenario').
Proof.
  intros scenario scenario'.
  apply (check_consistency_idempotent POSSIBLE_CHARACTERS scenario scenario'
           [("A", [TrueStatement])] (false, Some ("A", TrueStatement))).
  reflexivity.
Defined.

(** ** Equality and hashing of scenarios, continued *)

(** X14. On scenarios, [__eq__] answering [True] is an equivalence: it holds
    of a scenario and itself, in both directions or in none, and through a
    third scenario; it holds exactly when both scenarios assign every name
    alike. *)
Theorem Scenario_eq_is_an_equivalence :
  ∀ s1 s2 s3 : Scenario,
    dict_wf (character_types s1) →
    dict_wf (character_types s2) →
    dict_wf (character_types s3) →
    Scenario_eq s1 s1 = Ok true
    ∧ (Scenario_eq s1 s2 = Ok true → Scenario_eq s2 s1 = Ok true)
    ∧ (Scenario_eq s1 s2 = Ok true → Scenario_eq s2 s3 = Ok true →
       Scenario_eq s1 s3 = Ok true)
    ∧ (Scenario_eq s1 s2 = Ok true
       ↔ ∀ name, dict_get (character_types s1) name = dict_get (character_types s2) name).
Proof.
  intros s1 s2 s3 Hwf1 Hwf2 Hwf3. split; [|split; [|split]].
  - by apply Scenario_eq_true.
  - rewrite !Scenario_eq_true by done. by intros ->.
  - rewrite !Scenario_eq_true by done. by intros -> ->.
  - rewrite Scenario_eq_true by done. split.
    + intros Hperm name. by apply dict_get_Permutation.
    + intros Hget. apply NoDup_Permutation.
      * by apply NoDup_fmap_1 with (f := fst).
      * by apply NoDup_fmap_1 with (f := fst).
      * intros [name t]. split; intros Hin.
        -- apply dict_get_Some_elem. rewrite <- Hget. by apply dict_get_elem.
        -- apply dict_get_Some_elem. rewrite Hget. by apply dict_get_elem.
Qed.

Lemma Scenario_eq_is_an_equivalence_witness :
  Scenario_eq (Scenario_init [("B", Knave); ("A", Monk)])
    (Scenario_init [("A", Monk); ("B", Knave)]) = Ok true.
Proof.
  refine (proj1 (proj2 (Scenario_eq_is_an_equivalence
            (Scenario_init [("A", Monk); ("B", Knave)])
            (Scenario_init [("B", Knave); ("A", Monk)])
            (Scenario_init [("A", Monk); ("B", Knave)]) _ _ _)) _);
    [unfold dict_wf; compute_done.. | reflexivity].
Defined.

Lemma Scenario_eq_loop_Err items other e :
  Scenario_eq_loop items other = Err e →
  ∃ name, e = KeyError name ∧ name ∈ dict_keys items
          ∧ dict_get (character_types other) name = None.
Proof.
  unfold dict_keys. induction items as [|[name t] items IH]; simpl; [done|].
  unfold dict_getitem.
  destruct (dict_get (character_types other) name) as [t'|] eqn:Hget; simpl.
  - case_decide; [done|]. intros (name' & -> & Hin & Hnone)%IH.
    exists name'. split; [done|]. split; [by right | done].
  - intros [= <-]. exists name. split; [done|]. split; [by left | done].
Qed.

(** X15. [__eq__] answers [False] for scenarios of different sizes without
    looking anything up; for scenarios of the same size it raises [KeyError]
    only for a name of the first scenario that the second lacks, and it never
    raises when the second scenario assigns every name of the first. *)
Theorem Scenario_eq_raises_only_KeyError :
  ∀ self other : Scenario,
    (length (character_types self) ≠ length (character_types other) →
     Scenario_eq self other = Ok false)
    ∧ (∀ e, Scenario_eq self other = Err e →
         length (character_types self) = length (character_types other)
         ∧ ∃ name, e = KeyError name
                   ∧ name ∈ dict_keys (character_types self)
                   ∧ dict_get (character_types other) name = None)
    ∧ ((∀ name, name ∈ dict_keys (character_types self) →
                dict_get (character_types other) name ≠ None) →
       ∃ answer, Scenario_eq self other = Ok answer).
Proof.
  intros self other. unfold Scenario_eq. split; [|split].
  - intros Hlen. by rewrite decide_True.
  - intros e. case_decide as Hlen; [done|]. intros He.
    split; [by destruct (decide (length (character_types self)
                                 = length (character_types other)))|].
    by apply Scenario_eq_loop_Err.
  - intros Hall. case_decide; [by eexists|].
    destruct (Scenario_eq_loop (character_types self) other) as [answer|e] eqn:Hloop;
      [by eexists|].
    apply Scenario_eq_loop_Err in Hloop as (name & _ & Hin & Hnone).
    by destruct (Hall name Hin).
Qed.

(** X16. In the package, [__hash__] never raises on a scenario, and two
    scenarios for which [__eq__] answers [True] get the same hash, whatever the
    built-in [hash] is and in whatever order their names were inserted. *)
Theorem Scenario_hash_respects_eq :
  ∀ (hash : string → Z) (self other : Scenario),
    dict_wf (character_types self) →
    dict_wf (character_types other) →
    Scenario_eq self other = Ok true →
    ∃ text, Scenario_character_string self = Ok text
            ∧ Scenario_character_string other = Ok text
            ∧ Scenario_hash hash self = Ok (hash text)
            ∧ Scenario_hash hash other = Ok (hash text).
Proof.
  intros hash self other Hself Hother Heq.
  apply Scenario_eq_true in Heq; [|done..].
  destruct (Scenario_character_string_Permutation self other Hself Hother Heq)
    as [Hsame [text Htext]].
  exists text. unfold Scenario_hash. rewrite <- Hsame, Htext. done.
Qed.

Lemma Scenario_hash_respects_eq_witness :
  ∃ text,
    Scenario_character_string (Scenario_init [("B", Knave); ("A", Monk)]) = Ok text
    ∧ Scenario_character_string (Scenario_init [("A", Monk); ("B", Knave)]) = Ok text
    ∧ Scenario_hash (fun t => Z.of_nat (String.length t))
        (Scenario_init [("B", Knave); ("A", Monk)]) = Ok (Z.of_nat (String.length text))
    ∧ Scenario_hash (fun t => Z.of_nat (String.length t))
        (Scenario_init [("A", Monk); ("B", Knave)]) = Ok (Z.of_nat (String.length text)).
Proof.
  apply (Scenario_hash_respects_eq (fun t => Z.of_nat (String.length t)));
    [unfold dict_wf; compute_done.. | reflexivity].
Defined.

Lemma dict_same_keys_eq {V : Type} (d1 d2 : dict V) :
  dict_keys d1 = dict_keys d2 →
  dict_wf d2 →
  (∀ k v, (k, v) ∈ d1 → dict_get d2 k = Some v) →
  d1 = d2.
Proof.
  unfold dict_wf, dict_keys. revert d2.
  induction d1 as [|[k v] d1 IH]; intros [|[k' v'] d2]; simpl; try done.
  intros [= <- Hkeys] [Hk Hwf]%NoDup_cons Hget.
  pose proof (Hget k v (list_elem_of_here _ _)) as Hhead.
  rewrite decide_True in Hhead by done. injection Hhead as ->.
  f_equal. apply IH; [done..|].
  intros k2 v2 Hin. specialize (Hget k2 v2 (list_elem_of_further _ _ _ Hin)).
  rewrite decide_False in Hget; [done|].
  intros ->. apply Hk. rewrite <- Hkeys. by apply (list_elem_of_fmap_2 fst) in Hin.
Qed.

(** X17. Scenarios whose names were inserted in the same order, as all
    scenarios of one puzzle are, are equal under [__eq__] only when they are
    the same assignment; the older [__hash__] then hashes the same text for
    both. *)
Theorem Scenario_eq_same_insertion_order :
  ∀ (hash : string → Z) (self other : Scenario),
    dict_wf (character_types other) →
    dict_keys (character_types self) = dict_keys (character_types other) →
    Scenario_eq self other = Ok true →
    character_types self = character_types other
    ∧ Scenario_hash_old hash self = Scenario_hash_old hash other.
Proof.
  intros hash self other Hwf Hkeys Heq.
  assert (character_types self = character_types other) as Hsame.
  { apply dict_same_keys_eq; [done..|].
    unfold Scenario_eq in Heq. case_decide; [done|].
    by apply Scenario_eq_loop_true. }
  split; [done|]. unfold Scenario_hash_old, Scenario_character_string_old.
  by rewrite Hsame.
Qed.

Lemma Scenario_eq_same_insertion_order_witness :
  character_types (mkScenario [("A", Monk); ("B", Knave)] (Some (true, None)))
  = character_types (Scenario_init [("A", Monk); ("B", Knave)])
  ∧ Scenario_hash_old (fun t => Z.of_nat (String.length t))
      (mkScenario [("A", Monk); ("B", Knave)] (Some (true, None)))
    = Scenario_hash_old (fun t => Z.of_nat (String.length t))
        (Scenario_init [("A", Monk); ("B", Knave)]).
Proof.
  apply Scenario_eq_same_insertion_order;
    [unfold dict_wf; compute_done | reflexivity | reflexivity].
Defined.

Lemma character_string_loop_items (d : dict Identity) :
  dict_wf d →
  ∀ (seen rest : dict Identity) (acc : string),
    d = seen ++ rest →
    character_string_loop d (dict_keys rest) acc
    = Ok (fold_left (fun acc '(name, t) => acc +:+ hash_entry name t) rest acc).
Proof.
  intros Hwf seen rest. revert seen.
  induction rest as [|[name t] rest IH]; intros seen acc Hd; [done|]. simpl.
  unfold dict_getitem. rewrite (dict_get_elem d name t Hwf).
  - simpl. apply (IH (seen ++ [(name, t)])). by rewrite <- app_assoc.
  - rewrite Hd, elem_of_app. right. by left.
Qed.

(** X18. When the names of a scenario were inserted in increasing order, the
    package and the older file hash the same text, so the two [__hash__]
    methods agree on it. *)
Theorem Scenario_hash_agrees_on_sorted_insertion :
  ∀ (hash : string → Z) (self : Scenario),
    dict_wf (character_types self) →
    Sorted String.le (dict_keys (character_types self)) →
    Scenario_character_string self = Ok (Scenario_character_string_old self)
    ∧ Scenario_hash hash self = Ok (Scenario_hash_old hash self).
Proof.
  intros hash self Hwf Hsorted.
  assert (Scenario_character_string self = Ok (Scenario_character_string_old self)) as Htext.
  { unfold Scenario_character_string, sorted_names.
    rewrite (Sorted_unique String.le (merge_sort String.le (dict_keys (character_types self)))
               (dict_keys (character_types self)));
      [|apply Sorted_merge_sort; apply _ | done | apply merge_sort_Permutation].
    by apply (character_string_loop_items _ Hwf []). }
  split; [done|]. unfold Scenario_hash, Scenario_hash_old. by rewrite Htext.
Qed.

Lemma Scenario_hash_agrees_on_sorted_insertion_witness :
  Scenario_character_string (Scenario_init [("A", Monk); ("B", Knave)])
  = Ok (Scenario_character_string_old (Scenario_init [("A", Monk); ("B", Knave)]))
  ∧ Scenario_hash (fun t => Z.of_nat (String.length t))
      (Scenario_init [("A", Monk); ("B", Knave)])
    = Ok (Scenario_hash_old (fun t => Z.of_nat (String.length t))
            (Scenario_init [("A", Monk); ("B", Knave)])).
Proof.
  apply Scenario_hash_agrees_on_sorted_insertion; [unfold dict_wf; compute_done|].
  repeat constructor.
Defined.

(** ** Building a puzzle and its scenarios *)

Lemma Puzzle_init_loop_statements items :
  ∀ names statements_so_far,
    NoDup (dict_keys statements_so_far ++ dict_keys items) →
    (Puzzle_init_loop items names statements_so_far).2
    = statements_so_far ++ ((fun '(name, u) => (name, statements_of u)) <$> items).
Proof.
  unfold dict_keys.
  induction items as [|[name u] items IH]; intros names so_far Hnodup; simpl.
  - by rewrite app_nil_r.
  - apply NoDup_app in Hnodup as (Hso_far & Hdisjoint & Hitems).
    apply NoDup_cons in Hitems as [Hname Hitems].
    rewrite dict_setitem_fresh
      by (intros Hin; apply (Hdisjoint name Hin); left).
    rewrite IH.
    + rewrite <- app_assoc. by destruct u.
    + unfold dict_keys. rewrite fmap_app. simpl. apply NoDup_app. split; [|split; [|done]].
      * apply NoDup_app. split; [done|]. split; [|apply NoDup_singleton].
        intros k Hk ->%list_elem_of_singleton. apply (Hdisjoint name Hk). left.
      * intros k [Hk| ->%list_elem_of_singleton]%elem_of_app Hin; [|done].
        apply (Hdisjoint k Hk). by right.
Qed.

Lemma Puzzle_init_keeps_the_input_facts input allow_monks :
  dict_wf input →
  character_names (Puzzle_init input allow_monks) = dict_keys input
  ∧ character_statements (Puzzle_init input allow_monks)
    = (fun '(name, u) => (name, statements_of u)) <$> input
  ∧ scenarios (Puzzle_init input allow_monks) = []
  ∧ is_solved (Puzzle_init input allow_monks) = false.
Proof.
  intros Hwf. split; [apply Puzzle_init_names|].
  pose proof (Puzzle_init_loop_statements input [] [] Hwf) as Hloop.
  unfold Puzzle_init. by destruct (Puzzle_init_loop input [] []) as [names statements].
Qed.

(** X19. [Puzzle.__init__] keeps the characters in the order of its argument,
    stores for each name its list of statements, a single statement as a
    one-element list, and starts unsolved with no scenarios; every name of the
    argument can be looked up in [character_statements]. *)
Theorem Puzzle_init_keeps_the_input :
  ∀ (input : dict utterance) (allow_monks : bool),
    dict_wf input →
    let self := Puzzle_init input allow_monks in
    character_names self = dict_keys input
    ∧ character_statements self = (fun '(name, u) => (name, statements_of u)) <$> input
    ∧ dict_keys (character_statements self) = character_names self
    ∧ num_characters self = Z.of_nat (length input)
    ∧ scenarios self = []
    ∧ is_solved self = false
    ∧ ∀ name u, (name, u) ∈ input →
        dict_get (character_statements self) name = Some (statements_of u).
Proof.
  intros input allow_monks Hwf self.
  assert (character_statements self = (fun '(name, u) => (name, statements_of u)) <$> input)
    as Hstatements.
  { pose proof (Puzzle_init_loop_statements input [] [] Hwf) as Hloop.
    unfold self, Puzzle_init.
    destruct (Puzzle_init_loop input [] []) as [names statements]. done. }
  assert (character_names self = dict_keys input) as Hnames by apply Puzzle_init_names.
  assert (dict_keys (character_statements self) = dict_keys input) as Hkeys.
  { rewrite Hstatements. unfold dict_keys. rewrite <- list_fmap_compose.
    apply list_fmap_ext. by intros _ [name u] _. }
  split; [done|]. split; [done|]. split; [by rewrite Hkeys|].
  split; [|split; [|split]].
  - unfold num_characters. rewrite Hnames. unfold dict_keys. by rewrite length_fmap.
  - unfold self, Puzzle_init. by destruct (Puzzle_init_loop input [] []).
  - unfold self, Puzzle_init. by destruct (Puzzle_init_loop input [] []).
  - intros name u Hin. apply dict_get_elem.
    + unfold dict_wf. by rewrite Hkeys.
    + rewrite Hstatements.
      by apply (list_elem_of_fmap_2 (fun '(name, u) => (name, statements_of u)) _ (name, u)).
Qed.

Lemma Puzzle_init_keeps_the_input_witness :
  character_statements
    (Puzzle_init [("A", one_statement TrueStatement); ("B", statement_list [])] true)
  = (fun '(name, u) => (name, statements_of u))
      <$> [("A", one_statement TrueStatement); ("B", statement_list [])].
Proof.
  apply (Puzzle_init_keeps_the_input
           [("A", one_statement TrueStatement); ("B", statement_list [])] true).
  unfold dict_wf. compute_done.
Defined.

Lemma count_monks_zero_no_Monk scenario name :
  count_monks scenario = 0 → dict_get (character_types scenario) name ≠ Some Monk.
Proof.
  rewrite count_monks_filter. intros Hzero Hget.
  apply dict_get_Some_elem in Hget.
  assert ((name, Monk) ∈ filter (fun item => item.2 = Monk) (character_types scenario))
    as Hin by by apply list_elem_of_filter.
  destruct (filter _ _); [by apply elem_of_nil in Hin | simpl in Hzero; lia].
Qed.

(** X20. Every scenario that [_generate_scenarios] stores assigns exactly the
    characters of the puzzle, in their order, and has no result yet.  In a
    puzzle with at least one character the monks of a generated scenario are
    within [max_num_monks] and fewer than half of the characters; with monks
    forbidden no generated scenario assigns Monk to anyone. *)
Theorem generated_scenarios_cover_the_characters :
  ∀ (order : list Identity) (input : dict utterance) (allow_monks : bool),
    dict_wf input →
    let self := Puzzle_init input allow_monks in
    ∃ l, _generate_scenarios order self = Ok (set_scenarios self l)
         ∧ ∀ s, s ∈ l →
             dict_keys (character_types s) = character_names self
             ∧ scenario_result s = None
             ∧ (input ≠ [] →
                count_monks s ≤ max_num_monks self
                ∧ 2 * count_monks s < num_characters self)
             ∧ (allow_monks = false →
                ∀ name, dict_get (character_types s) name ≠ Some Monk).
Proof.
  intros order input allow_monks Hwf self.
  assert (NoDup (character_names self)) as Hnodup by by apply Puzzle_init_names_NoDup.
  destruct (_generate_scenarios_kept order self Hnodup) as (kept & Hgen & Hkept).
  eexists. split; [exact Hgen|].
  intros s (o & -> & Ho)%list_elem_of_fmap.
  rewrite Forall_forall in Hkept. destruct (Hkept o Ho) as [Hlen Hbound].
  assert (max_num_monks self = _calculate_max_num_monks (num_characters self) allow_monks)
    as Hmax by apply Puzzle_init_max_num_monks.
  split; [|split; [done|split]].
  - unfold assignment, dict_keys. simpl. by rewrite fst_zip by lia.
  - intros Hinput. rewrite (count_monks_assignment _ _ Hlen).
    assert (character_names self ≠ []) as Hne.
    { unfold self. rewrite Puzzle_init_names. by destruct input. }
    destruct Hbound as [|Hbound]; [done|]. split; [done|].
    assert (0 < num_characters self) as Hpos.
    { unfold num_characters. destruct (character_names self); [done | simpl; lia]. }
    destruct allow_monks.
    + rewrite _calculate_max_num_monks_allowed in Hmax.
      pose proof (Z.div_mod (num_characters self) 2 ltac:(lia)) as Hdm.
      rewrite Zmod_even in Hdm. destruct (Z.even (num_characters self)); lia.
    + change (max_num_monks self = 0) in Hmax. lia.
  - intros -> name. apply count_monks_zero_no_Monk.
    rewrite (count_monks_assignment _ _ Hlen). change (max_num_monks self = 0) in Hmax.
    pose proof (count_Monk_nonneg o). destruct Hbound as [Hnil|Hbound]; [|lia].
    rewrite Hnil in Hlen. by destruct o.
Qed.

Lemma generated_scenarios_cover_the_characters_witness :
  ∃ l, _generate_scenarios POSSIBLE_CHARACTERS
         (Puzzle_init [("A", one_statement TrueStatement); ("B", statement_list [])] false)
       = Ok (set_scenarios
               (Puzzle_init [("A", one_statement TrueStatement); ("B", statement_list [])]
                  false) l)
       ∧ ∀ s, s ∈ l → scenario_result s = None.
Proof.
  destruct (generated_scenarios_cover_the_characters POSSIBLE_CHARACTERS
              [("A", one_statement TrueStatement); ("B", statement_list [])] false)
    as (l & Hgen & Hall); [unfold dict_wf; compute_done|].
  exists l. split; [exact Hgen|]. intros s Hs. exact (proj1 (proj2 (Hall s Hs))).
Defined.

(** X21. Removing [Monk] from the pool when the bound is 0 is an
    optimisation only: iterating the identities in the order of the list of the
    older file, [_generate_scenarios] stores the same scenarios in the same
    order as the older [_generate_scenarios], which always takes the product of
    all three identities. *)
Theorem Monk_removal_changes_nothing :
  ∀ self : Puzzle,
    NoDup (character_names self) →
    _generate_scenarios POSSIBLE_CHARACTERS self = _generate_scenarios_old self.
Proof.
  intros self Hnodup.
  destruct (character_names self) as [|name names] eqn:Hnames.
  - unfold _generate_scenarios, _generate_scenarios_old. rewrite Hnames. simpl.
    unfold _generate_scenario. rewrite Hnames. done.
  - assert (character_names self ≠ []) as Hne by by rewrite Hnames.
    rewrite <- Hnames in Hnodup.
    rewrite (_generate_scenarios_filter POSSIBLE_CHARACTERS self Hnodup Hne).
    rewrite (_generate_scenarios_old_filter self Hnodup Hne).
    unfold identity_pool. case_decide as Hmax; [|done].
    rewrite <- product_without_Monk, list_filter_filter, Hmax.
    do 3 f_equal. apply list_filter_iff. intros o. lia.
Qed.

Lemma Monk_removal_changes_nothing_witness :
  _generate_scenarios POSSIBLE_CHARACTERS
    (Puzzle_init [("A", one_statement TrueStatement); ("B", statement_list [])] true)
  = _generate_scenarios_old
      (Puzzle_init [("A", one_statement TrueStatement); ("B", statement_list [])] true).
Proof.
  apply Monk_removal_changes_nothing. compute_done.
Defined.

(** ** Solving without exceptions *)

Lemma joined_statement_names statements statement mentioned :
  joined_statement statements = Some statement →
  mentioned ∈ referenced_names statement →
  ∃ s, s ∈ statements ∧ mentioned ∈ referenced_names s.
Proof.
  destruct statements as [|s1 [|s2 l]]; simpl; [done| |].
  - intros [= <-] Hin. exists s1. split; [by left | done].
  - intros [= <-] Hin. simpl in Hin.
    change (mentioned ∈ (s1 :: s2 :: l) ≫= referenced_names) in Hin.
    apply list_elem_of_bind in Hin as (s & Hs & Hin). by exists s.
Qed.

(** The check answers when the scenario assigns every speaker and every
    name the speakers mention. *)
Lemma _check_consistency_Ok order scenario cs :
  (∀ name statements, (name, statements) ∈ cs →
     dict_get (character_types scenario) name ≠ None
     ∧ ∀ s mentioned, s ∈ statements → mentioned ∈ referenced_names s →
         dict_get (character_types scenario) mentioned ≠ None) →
  ∃ r, _check_consistency order scenario cs = Ok r.
Proof.
  induction cs as [|[name statements] cs IH]; intros Hall; simpl; [by eexists|].
  destruct (Hall name statements (list_elem_of_here _ _)) as [Hname Hmentioned].
  unfold dict_getitem.
  destruct (dict_get (character_types scenario) name) as [t|]; [|done]. simpl.
  assert (∃ r, _check_consistency order scenario cs = Ok r) as [r Hr].
  { apply IH. intros name' statements' Hin. apply Hall. by right. }
  destruct (joined_statement statements) as [statement|] eqn:Hjoin; [|by exists r].
  assert (∃ truth, evaluate_truth order statement scenario = Ok truth) as [truth Htruth].
  { destruct (evaluate_truth order statement scenario) as [truth|e] eqn:Heval; [by eexists|].
    destruct (evaluate_truth_Err order scenario statement e Heval)
      as (mentioned & _ & Hin & Hnone).
    destruct (joined_statement_names _ _ _ Hjoin Hin) as (s & Hs & Hin').
    by destruct (Hmentioned s mentioned Hs Hin'). }
  unfold evaluate_consistency. rewrite Htruth. simpl.
  case_decide; simpl; [by exists r|].
  destruct t; simpl; [destruct truth | destruct truth | ]; simpl; eauto.
Qed.

Lemma check_scenarios_loop_Ok order self l :
  Forall (fun s => ∃ r, _check_consistency order s (character_statements self) = Ok r) l →
  ∃ l', check_scenarios_loop order self l = Ok l'.
Proof.
  induction 1 as [|s l [r Hr] _ [l' IH]]; simpl; [by eexists|].
  unfold check_scenario, check_consistency. rewrite Hr. simpl. rewrite IH. simpl.
  by eexists.
Qed.

Lemma get_consistent_scenario_set_loop_length l :
  ∀ ret ret', get_consistent_scenario_set_loop l ret = Ok ret' →
              (length ret' ≤ length ret + length l)%nat.
Proof.
  induction l as [|s l IH]; intros ret ret'; simpl.
  - intros [= <-]. lia.
  - destruct (scenario_result s) as [[b reason]|]; [|done].
    intros Hloop%IH. destruct b; [|lia].
    unfold set_add in Hloop. destruct (existsb _ ret); [lia|].
    rewrite length_app in Hloop. simpl in Hloop. lia.
Qed.

(** X22. A puzzle whose statements mention only its own characters is solved
    without any exception: [get_solution_count], [is_valid_puzzle] and
    [has_maximum_monks] all answer, the puzzle is then marked solved, and the
    solution count lies between 0 and the number of generated scenarios. *)
Theorem self_contained_puzzle_is_solved :
  ∀ (order : list Identity) (input : dict utterance) (allow_monks : bool),
    dict_wf input →
    self_contained input →
    let self := Puzzle_init input allow_monks in
    ∃ count solved,
      get_solution_count order self = Ok (count, solved)
      ∧ is_solved solved = true
      ∧ 0 ≤ count ∧ count ≤ get_total_possibilities solved
      ∧ (∃ valid p, is_valid_puzzle order self = Ok (valid, p))
      ∧ (∃ b, has_maximum_monks order self = Ok (b, solved)).
Proof.
  intros order input allow_monks Hwf Hself self.
  destruct (Puzzle_init_keeps_the_input_facts input allow_monks Hwf)
    as (Hnames & Hstatements & Hnone & Hunsolved).
  fold self in Hnames, Hstatements, Hnone, Hunsolved.
  assert (NoDup (character_names self)) as Hnodup by by apply Puzzle_init_names_NoDup.
  destruct (_generate_scenarios_kept order self Hnodup) as (kept & Hgen & Hkept).
  assert (∃ l', check_scenarios_loop order (set_scenarios self
                  (assignment (character_names self) <$> kept))
                  (assignment (character_names self) <$> kept) = Ok l') as [l' Hloop].
  { apply check_scenarios_loop_Ok. apply Forall_fmap, Forall_forall.
    intros o Ho. simpl. rewrite Forall_forall in Hkept. destruct (Hkept o Ho) as [Hlen _].
    assert (∀ name, name ∈ dict_keys input →
                    dict_get (character_types (assignment (character_names self) o)) name
                    ≠ None) as Hassigned.
    { intros name Hin Hget. apply dict_get_None in Hget. apply Hget.
      unfold assignment, dict_keys. simpl. rewrite fst_zip by lia. by rewrite Hnames. }
    apply _check_consistency_Ok. intros name statements Hin.
    rewrite Hstatements in Hin.
    apply list_elem_of_fmap in Hin as ([name' u] & [= -> ->] & Hin). split.
    - apply Hassigned. by apply (list_elem_of_fmap_2 fst) in Hin.
    - intros s mentioned Hs Hmentioned. apply Hassigned.
      by apply (Hself name' u s mentioned). }
  pose proof (check_scenarios_loop_checked _ _ _ _ Hloop) as Hchecked.
  pose proof (checked_well_checked order _ kept l' Hnodup Hkept Hchecked) as Hwell.
  destruct (get_consistent_scenario_set_loop_spec l' []) as (ret & Hret & _).
  { eapply Forall_impl; [exact Hwell|]. by intros s (_ & ? & _). }
  pose proof (get_consistent_scenario_set_loop_length l' [] ret Hret) as Hlength.
  assert (generate_and_check_scenarios order self
          = Ok (set_is_solved (set_scenarios (set_scenarios self
                  (assignment (character_names self) <$> kept)) l') true)) as Hsolve.
  { unfold generate_and_check_scenarios. rewrite Hnone. simpl. rewrite Hgen. simpl.
    rewrite Hloop. done. }
  assert (get_solution_count order self
          = Ok (Z.of_nat (length ret),
                set_is_solved (set_scenarios (set_scenarios self
                  (assignment (character_names self) <$> kept)) l') true)) as Hcount.
  { unfold get_solution_count. rewrite Hunsolved. simpl. rewrite Hsolve. simpl.
    unfold get_consistent_scenario_set. simpl. by rewrite Hret. }
  eexists _, _. split; [exact Hcount|]. split; [done|]. split; [lia|]. split.
  { unfold get_total_possibilities. simpl. simpl in Hlength. lia. }
  split.
  - unfold is_valid_puzzle. case_bool_decide; [|by eexists _, _].
    rewrite Hcount. simpl. by eexists _, _.
  - unfold has_maximum_monks. rewrite Hunsolved. simpl. rewrite Hsolve. simpl.
    unfold get_consistent_scenario_set. simpl. rewrite Hret. simpl. by eexists.
Qed.

Lemma self_contained_puzzle_is_solved_witness :
  ∃ count solved,
    get_solution_count POSSIBLE_CHARACTERS
      (Puzzle_init [("A", one_statement (IsOfType "A" Knight))] true) = Ok (count, solved)
    ∧ is_solved solved = true.
Proof.
  destruct (self_contained_puzzle_is_solved POSSIBLE_CHARACTERS
              [("A", one_statement (IsOfType "A" Knight))] true)
    as (count & solved & Hcount & Hsolved & _).
  - unfold dict_wf. compute_done.
  - intros name u statement mentioned Hin Hstatement Hmentioned.
    apply list_elem_of_singleton in Hin. injection Hin as -> ->.
    simpl in Hstatement. apply list_elem_of_singleton in Hstatement. subst statement.
    simpl in Hmentioned. apply list_elem_of_singleton in Hmentioned. subst mentioned.
    apply list_elem_of_singleton. reflexivity.
  - exists count, solved. split; [exact Hcount | exact Hsolved].
Defined.

(** X23. Once [get_solution_count] has answered, asking again gives the same
    count and leaves the puzzle as it is, and [has_maximum_monks] and
    [is_valid_puzzle] answer without changing the puzzle either: a solved
    puzzle is not solved again. *)
Theorem solved_puzzle_is_not_solved_again :
  ∀ (order : list Identity) (self solved : Puzzle) (count : Z),
    get_solution_count order self = Ok (count, solved) →
    is_solved solved = true
    ∧ get_solution_count order solved = Ok (count, solved)
    ∧ (∃ b, has_maximum_monks order solved = Ok (b, solved))
    ∧ (∃ valid, is_valid_puzzle order solved = Ok (valid, solved)).
Proof.
  intros order self solved count. unfold get_solution_count.
  destruct (is_solved self) eqn:Hsolved; simpl.
  - destruct (get_consistent_scenario_set self) as [ret|e] eqn:Hret; simpl; [|done].
    intros [= <- <-].
    assert (get_solution_count order self = Ok (Z.of_nat (length ret), self)) as Hagain.
    { unfold get_solution_count. rewrite Hsolved. simpl. by rewrite Hret. }
    split; [done|]. split; [by rewrite Hsolved; simpl; rewrite Hret|]. split.
    + unfold has_maximum_monks. rewrite Hsolved. simpl. rewrite Hret. by eexists.
    + unfold is_valid_puzzle. case_bool_decide; [|by eexists].
      rewrite Hagain. simpl. by eexists.
  - destruct (generate_and_check_scenarios order self) as [p|e] eqn:Hsolve; simpl; [|done].
    destruct (get_consistent_scenario_set p) as [ret|e] eqn:Hret; simpl; [|done].
    intros [= <- <-].
    assert (is_solved p = true) as Hp.
    { unfold generate_and_check_scenarios in Hsolve.
      destruct (if decide (length (scenarios self) = 0%nat)
                then _generate_scenarios order self else Ok self) as [p0|]; simpl in Hsolve;
        [|done].
      destruct (check_scenarios_loop order p0 (scenarios p0)); simpl in Hsolve; [|done].
      by injection Hsolve as <-. }
    assert (get_solution_count order p = Ok (Z.of_nat (length ret), p)) as Hagain.
    { unfold get_solution_count. rewrite Hp. simpl. by rewrite Hret. }
    split; [done|]. split; [by rewrite Hp; simpl; rewrite Hret|]. split.
    + unfold has_maximum_monks. rewrite Hp. simpl. rewrite Hret. by eexists.
    + unfold is_valid_puzzle. case_bool_decide; [|by eexists].
      rewrite Hagain. simpl. by eexists.
Qed.

Lemma solved_puzzle_is_not_solved_again_witness :
  ∃ solved,
    get_solution_count POSSIBLE_CHARACTERS circle_of_accusations = Ok (3, solved)
    ∧ get_solution_count POSSIBLE_CHARACTERS solved = Ok (3, solved).
Proof.
  destruct (get_solution_count POSSIBLE_CHARACTERS circle_of_accusations)
    as [[count solved]|e] eqn:Hcount; vm_compute in Hcount; [|discriminate].
  assert (count = 3) as -> by congruence.
  exists solved. split; [reflexivity|].
  exact (proj1 (proj2 (solved_puzzle_is_not_solved_again POSSIBLE_CHARACTERS
                         circle_of_accusations solved 3 Hcount))).
Defined.

(** ** Counting the solutions *)

Lemma _generate_scenarios_kept_NoDup order self :
  iteration_order order →
  NoDup (character_names self) →
  ∃ kept,
    _generate_scenarios order self
    = Ok (set_scenarios self (assignment (character_names self) <$> kept))
    ∧ Forall (fun ordering =>
                length ordering = length (character_names self)
                ∧ (character_names self = []
                   ∨ count_Monk ordering ≤ max_num_monks self)) kept
    ∧ NoDup kept
    ∧ (length kept ≤ 3 ^ length (character_names self))%nat.
Proof.
  intros Horder Hnodup. destruct (character_names self) as [|name names] eqn:Hnames.
  - exists [[]]. split; [|split; [repeat constructor|split]].
    + unfold _generate_scenarios. rewrite Hnames. simpl.
      unfold _generate_scenario. rewrite Hnames. done.
    + apply NoDup_singleton.
    + simpl. lia.
  - rewrite <- Hnames in *.
    assert (character_names self ≠ []) as Hne by by rewrite Hnames.
    eexists. split; [by apply _generate_scenarios_filter|]. split; [|split].
    + apply Forall_forall. intros o [Hbound Ho]%list_elem_of_filter. split; [|by right].
      pose proof (product_length (identity_pool order self) (length (character_names self)))
        as Hlen.
      rewrite Forall_forall in Hlen. by apply Hlen.
    + apply NoDup_filter, product_NoDup. by apply identity_pool_NoDup.
    + etrans; [apply length_filter|]. rewrite product_count.
      apply Nat.pow_le_mono_l. unfold identity_pool.
      assert (length order = 3%nat) as Horder3 by exact (Permutation_length Horder).
      case_decide; [|lia]. etrans; [apply length_filter|]. lia.
Qed.

(** Scenarios with the names in one order and pairwise different
    assignments all enter the set. *)
Lemma get_consistent_scenario_set_loop_exact names l :
  NoDup names →
  ∀ ret,
    Forall (fun s => dict_keys (character_types s) = names
                     ∧ is_Some (scenario_result s)) l →
    NoDup (character_types <$> l) →
    Forall (fun present => dict_keys (character_types present) = names) ret →
    (∀ present s, present ∈ ret → s ∈ l → character_types present ≠ character_types s) →
    get_consistent_scenario_set_loop l ret = Ok (ret ++ filter is_consistent l).
Proof.
  intros Hnames. induction l as [|s l IH]; intros ret Hall Hnodup Hret Hdistinct; simpl.
  - by rewrite app_nil_r.
  - apply Forall_cons in Hall as [[Hkeys [[b reason] Hresult]] Hall].
    rewrite fmap_cons in Hnodup. apply NoDup_cons in Hnodup as [Hfresh Hnodup].
    rewrite Hresult, filter_cons. destruct b.
    + rewrite decide_True by (unfold is_consistent; by rewrite Hresult).
      assert (set_add ret s = ret ++ [s]) as ->.
      { unfold set_add.
        destruct (existsb (fun present => answers_True (Scenario_eq present s)) ret)
          eqn:Hex; [|done].
        apply existsb_exists in Hex as (present & Hin%list_elem_of_In & Heq).
        unfold answers_True in Heq.
        destruct (Scenario_eq present s) as [[]|] eqn:Hpresent; [|done..].
        rewrite Forall_forall in Hret.
        destruct (Hdistinct present s Hin (list_elem_of_here _ _)).
        apply dict_same_keys_eq.
        - by rewrite Hkeys, (Hret present Hin).
        - unfold dict_wf. by rewrite Hkeys.
        - unfold Scenario_eq in Hpresent. case_decide; [done|].
          by apply Scenario_eq_loop_true. }
      rewrite IH; [by rewrite <- app_assoc | done | done | |].
      * apply Forall_app. split; [done|]. by repeat constructor.
      * intros present s' [Hin| ->%list_elem_of_singleton]%elem_of_app Hs'.
        -- apply Hdistinct; [done | by right].
        -- intros Hsame. apply Hfresh. rewrite Hsame.
           by apply (list_elem_of_fmap_2 character_types).
    + rewrite decide_False by (unfold is_consistent; rewrite Hresult; simpl; congruence).
      apply IH; [done..|]. intros present s' Hin Hs'. apply Hdistinct; [done | by right].
Qed.

(** X24. On a freshly built puzzle the solution count is the number of
    generated scenarios whose stored result is consistent: the set of
    consistent scenarios loses nothing to [__eq__], because the generated
    scenarios are pairwise different.  The number of generated scenarios is at
    most [3 ^ n]. *)
Theorem solution_count_counts_consistent_scenarios :
  ∀ (order : list Identity) (input : dict utterance) (allow_monks : bool)
    (count : Z) (solved : Puzzle),
    iteration_order order →
    dict_wf input →
    get_solution_count order (Puzzle_init input allow_monks) = Ok (count, solved) →
    count = Z.of_nat (length (filter is_consistent (scenarios solved)))
    ∧ get_consistent_scenario_set solved = Ok (filter is_consistent (scenarios solved))
    ∧ NoDup (character_types <$> scenarios solved)
    ∧ get_total_possibilities solved ≤ 3 ^ Z.of_nat (length input).
Proof.
  intros order input allow_monks count solved Horder Hwf.
  set (self := Puzzle_init input allow_monks).
  destruct (Puzzle_init_keeps_the_input_facts input allow_monks Hwf)
    as (Hnames & _ & Hnone & Hunsolved).
  fold self in Hnames, Hnone, Hunsolved.
  assert (NoDup (character_names self)) as Hnodup by by apply Puzzle_init_names_NoDup.
  destruct (_generate_scenarios_kept_NoDup order self Horder Hnodup)
    as (kept & Hgen & Hkept & Hkept_nodup & Hkept_length).
  unfold get_solution_count, generate_and_check_scenarios.
  rewrite Hunsolved, Hnone. simpl. rewrite Hgen. simpl.
  destruct (check_scenarios_loop order _ _) as [l'|e] eqn:Hloop; simpl; [|done].
  apply check_scenarios_loop_checked in Hloop.
  assert (character_types <$> l' = zip (character_names self) <$> kept) as Htypes.
  { rewrite Forall2_fmap_l in Hloop. clear -Hloop.
    induction Hloop as [|o s' os ss (r & _ & ->) _ IH]; [done|].
    rewrite !fmap_cons. by rewrite IH. }
  assert (NoDup (character_types <$> l')) as Hdistinct.
  { rewrite Htypes. apply NoDup_fmap_2_strong; [|done].
    intros o1 o2 Ho1 Ho2 Hzip. rewrite Forall_forall in Hkept.
    destruct (Hkept o1 Ho1) as [Hlen1 _]. destruct (Hkept o2 Ho2) as [Hlen2 _].
    apply (assignment_inj (character_names self)); [done..|].
    unfold assignment. by rewrite Hzip. }
  assert (Forall (fun s => dict_keys (character_types s) = character_names self
                           ∧ is_Some (scenario_result s)) l') as Hshape.
  { rewrite Forall2_fmap_l in Hloop. clear -Hloop Hkept. revert Hkept.
    induction Hloop as [|o s' os ss (r & _ & ->) _ IH]; intros Hkept; [constructor|].
    apply Forall_cons in Hkept as [[Hlen _] Hkept]. constructor; [|by apply IH].
    split; [|by eexists]. unfold dict_keys. simpl. by rewrite fst_zip by lia. }
  assert (get_consistent_scenario_set_loop l' [] = Ok (filter is_consistent l')) as Hset.
  { rewrite (get_consistent_scenario_set_loop_exact (character_names self) l' Hnodup []
               Hshape Hdistinct); [done | constructor|].
    intros present s Hin. by apply elem_of_nil in Hin. }
  unfold get_consistent_scenario_set. simpl. rewrite Hset. simpl.
  intros [= <- <-]. simpl.
  split; [done|]. split; [exact Hset|]. split; [done|].
  unfold get_total_possibilities. simpl.
  assert (length l' = length kept) as ->.
  { rewrite <- (length_fmap character_types l'), Htypes. by rewrite length_fmap. }
  assert (length (character_names self) = length input) as Hn.
  { rewrite Hnames. unfold dict_keys. by rewrite length_fmap. }
  rewrite Hn in Hkept_length.
  replace (3 ^ Z.of_nat (length input)) with (Z.of_nat (3 ^ length input))
    by (by rewrite Nat2Z.inj_pow).
  lia.
Qed.

Lemma solution_count_counts_consistent_scenarios_witness :
  ∃ solved,
    get_solution_count POSSIBLE_CHARACTERS circle_of_accusations = Ok (3, solved)
    ∧ 3 = Z.of_nat (length (filter is_consistent (scenarios solved))).
Proof.
  destruct (get_solution_count POSSIBLE_CHARACTERS circle_of_accusations)
    as [[count solved]|e] eqn:Hcount; vm_compute in Hcount; [|discriminate].
  assert (count = 3) as -> by congruence.
  exists solved. split; [reflexivity|].
  refine (proj1 (solution_count_counts_consistent_scenarios POSSIBLE_CHARACTERS
            [("A", one_statement (IsOfType "B" Knave));
             ("B", one_statement (IsOfType "C" Knave));
             ("C", one_statement (IsOfType "A" Knave))] true 3 solved _ _ Hcount)).
  - unfold iteration_order. done.
  - unfold dict_wf. compute_done.
Defined.

(** ** The order of honesty *)

(** X25. The comparison methods of [Character] order the identities
    Knight above Monk above Knave: "more often" is a strict total order,
    "less often" is its converse, and the two remaining methods are the
    negations of these. *)
Theorem honesty_is_a_strict_total_order :
  ∀ a b c : Identity,
    tells_truth_more_often_than a a = false
    ∧ (tells_truth_more_often_than a b && tells_truth_more_often_than b c
       = true → tells_truth_more_often_than a c = true)
    ∧ tells_truth_more_often_than a b || tells_truth_more_often_than b a
      = negb (bool_decide (a = b))
    ∧ tells_truth_less_often_than a b = tells_truth_more_often_than b a
    ∧ tells_truth_at_least_as_often_as a b = negb (tells_truth_less_often_than a b)
    ∧ tells_truth_less_often_or_the_same_as a b = negb (tells_truth_more_often_than a b)
    ∧ (tells_truth_more_often_than a b = true
       ↔ (a = Knight ∧ b ≠ Knight) ∨ (a = Monk ∧ b = Knave)).
Proof.
  intros a b c.
  split; [by destruct a|].
  split; [by destruct a, b, c|].
  split; [by destruct a, b|].
  split; [by destruct a, b|].
  split; [by destruct a, b|].
  split; [by destruct a, b|].
  destruct a, b; (split; [intros H; vm_compute in H; try discriminate H | ]);
    try (by intros [[? ?]|[? ?]]); try (by left); by right.
Qed.

(** X26. For two assigned characters an [Honesty] statement is true exactly
    when the comparison method of [Character] for its operator says so. *)
Theorem Honesty_agrees_with_the_comparison_methods :
  ∀ (order : list Identity) (scenario : Scenario) (n1 n2 : string) (t1 t2 : Identity),
    dict_get (character_types scenario) n1 = Some t1 →
    dict_get (character_types scenario) n2 = Some t2 →
    evaluate_truth order (Honesty n1 n2 op_gt) scenario
    = Ok (tells_truth_more_often_than t1 t2)
    ∧ evaluate_truth order (Honesty n1 n2 op_lt) scenario
      = Ok (tells_truth_less_often_than t1 t2)
    ∧ evaluate_truth order (Honesty n1 n2 op_ge) scenario
      = Ok (tells_truth_at_least_as_often_as t1 t2)
    ∧ evaluate_truth order (Honesty n1 n2 op_le) scenario
      = Ok (tells_truth_less_often_or_the_same_as t1 t2).
Proof.
  intros order scenario n1 n2 t1 t2 H1 H2. simpl.
  rewrite (find_character_Some _ _ _ H1), (find_character_Some _ _ _ H2). simpl.
  done.
Qed.

Lemma Honesty_agrees_with_the_comparison_methods_witness :
  evaluate_truth POSSIBLE_CHARACTERS (Honesty "A" "B" op_gt)
    (Scenario_init [("A", Monk); ("B", Knave)])
  = Ok (tells_truth_more_often_than Monk Knave).
Proof.
  refine (proj1 (Honesty_agrees_with_the_comparison_methods POSSIBLE_CHARACTERS
            (Scenario_init [("A", Monk); ("B", Knave)]) "A" "B" Monk Knave _ _));
    reflexivity.
Defined.

(** ** The statements a generator proposes *)

Lemma product2_length {A B : Type} (xs : list A) (ys : list B) :
  length (product2 xs ys) = (length xs * length ys)%nat.
Proof.
  unfold product2. induction xs as [|x xs IH]; [done|].
  change (length (((fun y => (x, y)) <$> ys) ++ (xs ≫= fun x => (fun y => (x, y)) <$> ys))
          = (length (x :: xs) * length ys)%nat).
  rewrite length_app, length_fmap, IH. simpl. lia.
Qed.

Lemma elem_of_product2 {A B : Type} (xs : list A) (ys : list B) x y :
  (x, y) ∈ product2 xs ys ↔ x ∈ xs ∧ y ∈ ys.
Proof.
  unfold product2. rewrite list_elem_of_bind. split.
  - intros (x' & Hin & Hx'). apply list_elem_of_fmap in Hin as (y' & [= -> ->] & Hy').
    done.
  - intros [Hx Hy]. exists x. split; [|done]. by apply (list_elem_of_fmap_2' _ _ y).
Qed.

(** The entry for the positions [i] and [j] stands at [i * length ys + j]. *)
Lemma product2_lookup {A B : Type} (xs : list A) (ys : list B) i j x y :
  xs !! i = Some x → ys !! j = Some y →
  product2 xs ys !! (i * length ys + j)%nat = Some (x, y).
Proof.
  unfold product2. revert i. induction xs as [|x' xs IH]; intros i Hx Hy; [done|].
  change ((((fun y => (x', y)) <$> ys) ++ (xs ≫= fun x => (fun y => (x, y)) <$> ys))
            !! (i * length ys + j)%nat = Some (x, y)).
  destruct i as [|i]; simpl in Hx.
  - injection Hx as ->. rewrite lookup_app_l.
    + rewrite list_lookup_fmap. simpl. by rewrite Hy.
    + rewrite length_fmap. by apply lookup_lt_Some in Hy.
  - rewrite lookup_app_r; rewrite length_fmap; [|lia].
    replace (S i * length ys + j - length ys)%nat with (i * length ys + j)%nat by lia.
    by apply IH.
Qed.

Lemma product2_NoDup {A B : Type} (xs : list A) (ys : list B) :
  NoDup xs → NoDup ys → NoDup (product2 xs ys).
Proof.
  intros Hxs Hys. induction Hxs as [|x xs Hfresh _ IH]; [constructor|].
  change (NoDup (((fun y => (x, y)) <$> ys) ++ product2 xs ys)).
  apply NoDup_app. split; [|split; [|done]].
  - apply NoDup_fmap_2; [|done]. by intros y1 y2 [= ->].
  - intros [x' y'] Hin Hin'. apply list_elem_of_fmap in Hin as (y'' & [= -> ->] & _).
    apply elem_of_product2 in Hin' as [Hx _]. done.
Qed.

Lemma combinations2_length {A : Type} (xs : list A) :
  (2 * length (combinations2 xs) = length xs * (length xs - 1))%nat.
Proof.
  induction xs as [|x xs IH]; [done|].
  simpl combinations2. rewrite length_app, length_fmap. simpl length.
  destruct (length xs) as [|n]; simpl in *; [lia|].
  rewrite Nat.sub_0_r in *. lia.
Qed.

Lemma elem_of_combinations2 {A : Type} (xs : list A) a b :
  (a, b) ∈ combinations2 xs
  ↔ ∃ i j, (i < j)%nat ∧ xs !! i = Some a ∧ xs !! j = Some b.
Proof.
  induction xs as [|x xs IH]; simpl.
  - split; [by intros H%elem_of_nil|]. by intros (i & j & _ & H & _).
  - rewrite elem_of_app, IH. split.
    + intros [Hin|(i & j & Hlt & Hi & Hj)].
      * apply list_elem_of_fmap in Hin as (y & [= -> ->] & Hy).
        apply list_elem_of_lookup in Hy as [j Hj].
        exists 0%nat, (S j). split; [lia|]. done.
      * exists (S i), (S j). split; [lia|]. done.
    + intros (i & j & Hlt & Hi & Hj). destruct j as [|j]; [lia|]. simpl in Hj.
      destruct i as [|i]; simpl in Hi.
      * injection Hi as ->. left. apply (list_elem_of_fmap_2' _ _ b); [|done].
        by apply list_elem_of_lookup_2 in Hj.
      * right. exists i, j. split; [lia|]. done.
Qed.

Lemma combinations2_NoDup {A : Type} (xs : list A) :
  NoDup xs → NoDup (combinations2 xs).
Proof.
  induction 1 as [|x xs Hfresh Hxs IH]; [constructor|].
  simpl. apply NoDup_app. split; [|split; [|done]].
  - apply NoDup_fmap_2; [|done]. by intros y1 y2 [= ->].
  - intros [a b] Hin Hin'. apply list_elem_of_fmap in Hin as (y & [= -> ->] & _).
    apply elem_of_combinations2 in Hin' as (i & j & _ & Hi & _).
    apply Hfresh. by apply list_elem_of_lookup_2 in Hi.
Qed.

(** X27. [IsOfType.generate_possibilities] proposes one statement for every
    name and every kind, the kinds varying fastest: the statement for the
    name at position [i] and the kind at position [j] stands at position
    [i * len(kinds) + j].  Nothing else is proposed, and distinct names and
    kinds give distinct statements. *)
Theorem IsOfType_possibilities :
  ∀ (names : list string) (kinds : list Identity),
    length (IsOfType_generate_possibilities names kinds)
    = (length names * length kinds)%nat
    ∧ (∀ i j name kind,
         names !! i = Some name → kinds !! j = Some kind →
         IsOfType_generate_possibilities names kinds !! (i * length kinds + j)%nat
         = Some (IsOfType name kind))
    ∧ (∀ statement,
         statement ∈ IsOfType_generate_possibilities names kinds
         ↔ ∃ name kind, statement = IsOfType name kind ∧ name ∈ names ∧ kind ∈ kinds)
    ∧ (NoDup names → NoDup kinds → NoDup (IsOfType_generate_possibilities names kinds)).
Proof.
  intros names kinds. unfold IsOfType_generate_possibilities.
  split; [by rewrite length_fmap, product2_length|].
  split; [|split].
  - intros i j name kind Hi Hj.
    by rewrite list_lookup_fmap, (product2_lookup _ _ _ _ _ _ Hi Hj).
  - intros statement. rewrite list_elem_of_fmap. split.
    + intros ([name kind] & -> & Hin%elem_of_product2). by exists name, kind.
    + intros (name & kind & -> & Hin). exists (name, kind).
      split; [done|]. by apply elem_of_product2.
  - intros Hnames Hkinds. apply NoDup_fmap_2; [|by apply product2_NoDup].
    by intros [n1 k1] [n2 k2] [= -> ->].
Qed.

(** X28. [Honesty.generate_possibilities] proposes, for every two positions
    [i < j] of the names, the statements "less than" and "more than" about
    the names at [i] and [j], and nothing else: [n * (n - 1)] statements for
    [n] names, whatever the kinds.  With distinct names no statement is
    proposed twice and none compares a character with itself. *)
Theorem Honesty_possibilities :
  ∀ (names : list string) (kinds : list Identity),
    length (Honesty_generate_possibilities names kinds)
    = (length names * (length names - 1))%nat
    ∧ (∀ statement,
         statement ∈ Honesty_generate_possibilities names kinds
         ↔ ∃ i j a b op,
             (i < j)%nat ∧ names !! i = Some a ∧ names !! j = Some b
             ∧ (op = op_lt ∨ op = op_gt) ∧ statement = Honesty a b op)
    ∧ (NoDup names →
       NoDup (Honesty_generate_possibilities names kinds)
       ∧ ∀ a b op, Honesty a b op ∈ Honesty_generate_possibilities names kinds → a ≠ b).
Proof.
  intros names kinds. unfold Honesty_generate_possibilities.
  assert (∀ statement,
            statement ∈ ((fun '((a, b), op) => Honesty a b op)
                           <$> product2 (combinations2 names) [op_lt; op_gt])
            ↔ ∃ i j a b op,
                (i < j)%nat ∧ names !! i = Some a ∧ names !! j = Some b
                ∧ (op = op_lt ∨ op = op_gt) ∧ statement = Honesty a b op) as Helem.
  { intros statement. rewrite list_elem_of_fmap. split.
    - intros ([[a b] op] & -> & [Hab Hop]%elem_of_product2).
      apply elem_of_combinations2 in Hab as (i & j & Hlt & Hi & Hj).
      exists i, j, a, b, op. repeat (split; [done|]). split; [|done].
      rewrite !elem_of_cons in Hop. destruct Hop as [->| [->|Hop]]; auto.
      by apply elem_of_nil in Hop.
    - intros (i & j & a & b & op & Hlt & Hi & Hj & Hop & ->).
      exists ((a, b), op). split; [done|]. apply elem_of_product2. split.
      + apply elem_of_combinations2. by exists i, j.
      + rewrite !elem_of_cons. destruct Hop as [->| ->]; auto. }
  split; [|split; [done|]].
  - rewrite length_fmap, product2_length. pose proof (combinations2_length names).
    simpl length. lia.
  - intros Hnames. split.
    + apply NoDup_fmap_2.
      * by intros [[a1 b1] o1] [[a2 b2] o2] [= -> -> ->].
      * apply product2_NoDup; [by apply combinations2_NoDup|].
        apply NoDup_cons. split; [|apply NoDup_singleton].
        rewrite list_elem_of_singleton. done.
    + intros a b op (i & j & a' & b' & op' & Hlt & Hi & Hj & _ & [= -> -> ->])%Helem ->.
      pose proof (NoDup_lookup _ _ _ _ Hnames Hi Hj). lia.
Qed.

Lemma generated_statements_names names kinds statement :
  statement ∈ IsOfType_generate_possibilities names kinds
              ++ Honesty_generate_possibilities names kinds
              ++ SamenessCount_generate_possibilities names kinds →
  ∀ name, name ∈ referenced_names statement → name ∈ names.
Proof.
  rewrite !elem_of_app. intros [Hin|[Hin|Hin]] name Hname.
  - unfold IsOfType_generate_possibilities in Hin.
    apply list_elem_of_fmap in Hin as ([n k] & -> & [Hn _]%elem_of_product2).
    simpl in Hname. by apply list_elem_of_singleton in Hname as ->.
  - unfold Honesty_generate_possibilities in Hin.
    apply list_elem_of_fmap in Hin as ([[a b] op] & -> & [Hab _]%elem_of_product2).
    apply elem_of_combinations2 in Hab as (i & j & _ & Hi & Hj).
    apply list_elem_of_lookup_2 in Hi, Hj. simpl in Hname.
    rewrite !elem_of_cons in Hname. destruct Hname as [->|[->|Hname]]; [done..|].
    by apply elem_of_nil in Hname.
  - unfold SamenessCount_generate_possibilities in Hin.
    apply list_elem_of_singleton in Hin as ->. by apply elem_of_nil in Hname.
Qed.

(** X29. A statement proposed by one of the three generators for a list of
    names mentions those names only, so on a scenario that assigns every one
    of the names its truth value is computed: nothing is raised. *)
Theorem generated_statements_evaluate :
  ∀ (order : list Identity) (scenario : Scenario) (names : list string)
    (kinds : list Identity) (statement : Statement),
    (∀ name, name ∈ names → is_Some (dict_get (character_types scenario) name)) →
    statement ∈ IsOfType_generate_possibilities names kinds
                ++ Honesty_generate_possibilities names kinds
                ++ SamenessCount_generate_possibilities names kinds →
    (∀ name, name ∈ referenced_names statement → name ∈ names)
    ∧ ∃ truth, evaluate_truth order statement scenario = Ok truth.
Proof.
  intros order scenario names kinds statement Hassigned Hin.
  pose proof (generated_statements_names names kinds statement Hin) as Hnames.
  split; [done|].
  destruct (evaluate_truth order statement scenario) as [truth|e] eqn:Htruth;
    [by exists truth|].
  apply evaluate_truth_Err in Htruth as (name & _ & Hname & Hnone).
  destruct (Hassigned name (Hnames name Hname)) as [t Ht]. congruence.
Qed.

Lemma generated_statements_evaluate_witness :
  ∃ truth,
    evaluate_truth POSSIBLE_CHARACTERS (Honesty "A" "B" op_lt)
      (Scenario_init [("A", Knight); ("B", Knave)]) = Ok truth.
Proof.
  refine (proj2 (generated_statements_evaluate POSSIBLE_CHARACTERS
            (Scenario_init [("A", Knight); ("B", Knave)]) ["A"; "B"] POSSIBLE_CHARACTERS
            (Honesty "A" "B" op_lt) _ _)).
  - intros name Hname. rewrite !elem_of_cons in Hname.
    destruct Hname as [->|[->|Hname]]; [by eexists..|]. by apply elem_of_nil in Hname.
  - vm_compute. do 6 right. left.
Defined.

Lemma count_of_type_sum scenario :
  count_of_type scenario Knight + count_of_type scenario Knave
  + count_of_type scenario Monk
  = Z.of_nat (length (character_types scenario))
  ∧ ∀ c, 0 ≤ count_of_type scenario c.
Proof.
  split.
  - rewrite !count_of_type_filter. unfold dict_values.
    rewrite <- (length_fmap snd (character_types scenario)).
    generalize (snd <$> character_types scenario) as l. intros l.
    induction l as [|t l IH]; [done|].
    rewrite !filter_cons. destruct t; simpl in *; lia.
  - intros c. rewrite count_of_type_filter. lia.
Qed.

(** X30. The one statement [SamenessCount.generate_possibilities] proposes
    for [n] names, "at most [n // 2] of us are the same", is true in every
    scenario with [n] characters: the three counts add up to [n], so the
    smallest of them is at most [n // 2]. *)
Theorem generated_SamenessCount_is_always_true :
  ∀ (order : list Identity) (scenario : Scenario) (names : list string)
    (kinds : list Identity) (statement : Statement),
    iteration_order order →
    length (character_types scenario) = length names →
    statement ∈ SamenessCount_generate_possibilities names kinds →
    statement = SamenessCount (Z.of_nat (length names) `div` 2) op_le
    ∧ evaluate_truth order statement scenario = Ok true.
Proof.
  intros order scenario names kinds statement Horder Hlength Hin.
  unfold SamenessCount_generate_possibilities in Hin.
  apply list_elem_of_singleton in Hin as ->. split; [done|].
  simpl. rewrite combiner_evaluate_truth_existsb.
  rewrite (existsb_Permutation _ _ _ Horder). simpl.
  unfold CountOfType_evaluate_truth. simpl.
  destruct (count_of_type_sum scenario) as [Hsum Hnonneg].
  rewrite Hlength in Hsum.
  pose proof (Hnonneg Knight). pose proof (Hnonneg Knave). pose proof (Hnonneg Monk).
  set (n := Z.of_nat (length names)) in *.
  assert (0 ≤ n) by lia.
  assert (n `div` 2 * 2 ≤ n ∧ n < n `div` 2 * 2 + 2) as [Hlow Hhigh].
  { pose proof (Z.div_mod n 2). pose proof (Z.mod_pos_bound n 2). lia. }
  repeat case_bool_decide; try done. lia.
Qed.

Lemma generated_SamenessCount_is_always_true_witness :
  evaluate_truth [Monk; Knight; Knave] (SamenessCount 1 op_le)
    (Scenario_init [("A", Knight); ("B", Knight); ("C", Knight)]) = Ok true.
Proof.
  refine (proj2 (generated_SamenessCount_is_always_true [Monk; Knight; Knave]
            (Scenario_init [("A", Knight); ("B", Knight); ("C", Knight)])
            ["A"; "B"; "C"] POSSIBLE_CHARACTERS (SamenessCount 1 op_le) _ _ _)).
  - apply (Permutation_cons_append [Knight; Knave] Monk).
  - reflexivity.
  - left.
Defined.
